(** * Depthwise 1-D convolution kernels of [conv1d_blh.cu]

    A shallow embedding of [csrc/flashfftconv/conv1d/conv1d_blh.cu]:
    the padding-aware sampler [get_u], the packed multiply-accumulate
    [__hfma2], the two device kernels, the grid launch and the host
    dispatcher [conv1d_cuda_blh], followed by the properties proved of them.

    Conventions.
    - A C [uint] is a [Z] in [0, 2^32); every arithmetic operation of the
      source on [uint] operands is written with the wrapping operators
      [⊕], [⊖], [⊗].  A C [int] is a [Z] in [-2^31, 2^31); [int] and [uint]
      are the conversions between the two.
    - A tensor's storage is a flat list of scalars.  The pointers the
      dispatcher obtains with [static_cast<T2 *>(data_ptr())] address that
      storage two scalars at a time ([load2], [store2]).
    - An access outside a buffer is undefined behaviour in the source; here
      it makes the loaded value, and with it the whole launch, [None].
    - A kernel thread is modelled by the list of stores it performs, in
      program order; a launch that the CUDA runtime accepts runs every
      thread of every block, a launch it refuses runs none. *)

From Stdlib Require Import ZArith Lia String.
From Stdlib Require Import Floats.SpecFloat.
From stdpp Require Import base tactics option list numbers.

Local Open Scope Z_scope.

(** ** Machine integers *)

Definition uint (z : Z) : Z := z mod 2 ^ 32.
Definition int (z : Z) : Z := (z + 2 ^ 31) mod 2 ^ 32 - 2 ^ 31.

Definition uadd (a b : Z) : Z := uint (a + b).
Definition usub (a b : Z) : Z := uint (a - b).
Definition umul (a b : Z) : Z := uint (a * b).

Infix "⊕" := uadd (at level 50, left associativity).
Infix "⊖" := usub (at level 50, left associativity).
Infix "⊗" := umul (at level 40, left associativity).

(** [ceil(a * 1.0 / b)] converted back to [uint].  The operands are below
    [2^32] and the divisors of the source are powers of two, so the
    double-precision quotient is exact and this is integer ceiling division. *)
Definition ceil_div (a b : Z) : Z := uint (- ((- a) `div` b)).

(** ** Tuning constants (lines 14-19) *)

Definition BX : Z := 512.
Definition BY : Z := 1.
Definition BZ : Z := 1.

Definition TILE_SIZE_Y : Z := 4.
Definition TILE_SIZE_X : Z := 2.

Record dim3 := Dim3 { dim_x : Z; dim_y : Z; dim_z : Z }.

(** ** Numeric representations *)

(** The element types the dispatcher tests for, among the scalar types a
    tensor can have. *)
Inductive ScalarType :=
  | kByte | kChar | kShort | kInt | kLong
  | kFloat16 | kFloat32 | kFloat64
  | kComplexFloat | kComplexDouble | kBool | kBFloat16.

Definition supported (dt : ScalarType) : bool :=
  match dt with
  | kFloat16 | kBFloat16 | kFloat32 => true
  | _ => false
  end.

(** What the kernels need of a scalar representation: the constant [0.0f]
    converted to it, and one lane of the multiply-add [a * b + c]. *)
Class Repr (S : Type) := {
  f0 : S;
  fmac : S → S → S → S
}.

(** Device buffers a kernel receives a pointer to. *)
Inductive Buffer := buf_u | buf_weights | buf_bias | buf_out.

(** The two [__global__] functions. *)
Inductive Kernel := Generic | Width3.

(** The dispatcher's [if]/[else if] chain (lines 161-247): which kernel is
    launched, [None] on the [printf("Unsupported datatype\n")] branches. *)
Definition select_kernel (k : Z) (dt : ScalarType) : option Kernel :=
  if k =? 3 then
    match dt with
    | kFloat16 => Some Generic
    | kBFloat16 => Some Width3
    | kFloat32 => Some Width3
    | _ => None
    end
  else
    match dt with
    | kFloat16 => Some Generic
    | kBFloat16 => Some Generic
    | kFloat32 => Some Generic
    | _ => None
    end.

Definition unsupported_msg : string :=
  String.append "Unsupported datatype" (String (Ascii.ascii_of_nat 10) EmptyString).

Section Kernels.
Context {S : Type} `{Repr S}.

(** [__half2], [__nv_bfloat162], [float2]: two lanes of one scalar type. *)
Definition vec2 : Type := S * S.

(** Lines 21-24 for [float2]; the CUDA intrinsic of the same name for the
    two 16-bit pair types.  All three act lane by lane. *)
Definition __hfma2 (a b c : vec2) : vec2 :=
  (fmac a.1 b.1 c.1, fmac a.2 b.2 c.2).

(** [__float2half2_rn(0.0f)], [__float2bfloat162_rn(0.0f)] and
    [make_float2(0.0f, 0.0f)]. *)
Definition zero2 : vec2 := (f0, f0).

(** [p[i]] through a pair pointer into scalar storage [p]. *)
Definition load2 (p : list S) (i : Z) : option vec2 :=
  if decide (0 ≤ i) then
    x ← p !! Z.to_nat (2 * i);
    y ← p !! Z.to_nat (2 * i + 1);
    Some (x, y)
  else None.

(** Lines 27-41: the three overloads share this body and differ in the
    type of [u] and in how the zero pair is built. *)
Definition get_u (u : list S) (L_eff l p b k d L D K : Z) : option vec2 :=
  if (l ⊕ k <? p) || (l ⊕ k >? L_eff ⊖ (p ⊕ 1)) then Some zero2
  else load2 u (b ⊗ L ⊗ D ⊕ (l ⊕ k ⊖ p) ⊗ D ⊕ d).

(** A store [ptr[idx] = val] performed by a thread; [val] is [None] when
    computing it read outside a buffer. *)
Record Store := mkStore { st_buf : Buffer; st_idx : Z; st_val : option vec2 }.

(** Lines 45-55.  The parameters [b], [l], [d], [t] are [uint] here. *)
Definition _conv1d_k_3 (u weights bias : list S)
    (padding b l d t L D K L_eff L_out : Z) : list Store :=
  let temp_sum := load2 bias d in
  let temp_sum :=
    a ← temp_sum;
    x ← get_u u L_eff (l ⊕ t) padding b 0 d L D K;
    w ← load2 weights (0 ⊗ D ⊕ d);
    Some (__hfma2 x w a) in
  let temp_sum :=
    a ← temp_sum;
    x ← get_u u L_eff (l ⊕ t) padding b 1 d L D K;
    w ← load2 weights (1 ⊗ D ⊕ d);
    Some (__hfma2 x w a) in
  [mkStore buf_out (b ⊗ D ⊗ L_out ⊕ (l ⊕ t) ⊗ D ⊕ d)
     (a ← temp_sum;
      x ← get_u u L_eff (l ⊕ t) padding b 2 d L D K;
      w ← load2 weights (2 ⊗ D ⊕ d);
      Some (__hfma2 x w a))].

(** Lines 57-92, one thread. *)
Definition conv1d_kernel_k_3 (u weights bias : list S)
    (padding B L L_out L_eff D K : Z)
    (blockIdx blockDim threadIdx : dim3) : list Store :=
  let d_block := int (dim_x blockIdx ⊗ dim_x blockDim ⊗ TILE_SIZE_X) in
  let l := int (dim_y blockIdx ⊗ dim_y blockDim ⊗ TILE_SIZE_Y
                ⊕ dim_y threadIdx ⊗ TILE_SIZE_Y) in
  let b := int (dim_z blockIdx ⊗ dim_z blockDim ⊕ dim_z threadIdx) in
  i ← seqZ 0 TILE_SIZE_X;
  let d := int (uint d_block ⊕ dim_x threadIdx ⊕ uint i ⊗ BX) in
  if (uint d <? D) && (uint b <? B) then
    t ← seqZ 0 TILE_SIZE_Y;
    if uint (int (l + t)) <? L_eff ⊖ K ⊕ 1 then
      _conv1d_k_3 u weights bias padding (uint b) (uint l) (uint d) (uint t)
        L D K L_eff L_out
    else []
  else [].

(** Lines 94-133, one thread. *)
Definition conv1d_kernel (u weights bias : list S)
    (padding B L L_out L_eff D K : Z)
    (blockIdx blockDim threadIdx : dim3) : list Store :=
  let d_block := int (dim_x blockIdx ⊗ dim_x blockDim ⊗ TILE_SIZE_X) in
  let l := int (dim_y blockIdx ⊗ dim_y blockDim ⊗ TILE_SIZE_Y
                ⊕ dim_y threadIdx ⊗ TILE_SIZE_Y) in
  let b := int (dim_z blockIdx ⊗ dim_z blockDim ⊕ dim_z threadIdx) in
  i ← seqZ 0 TILE_SIZE_X;
  let d := int (uint d_block ⊕ dim_x threadIdx ⊕ uint i ⊗ BX) in
  if (uint d <? D) && (uint b <? B) then
    t ← seqZ 0 TILE_SIZE_Y;
    if uint (int (l + t)) <? L_eff ⊖ K ⊕ 1 then
      let temp_sum :=
        foldl (λ temp_sum k,
                 a ← temp_sum;
                 x ← get_u u L_eff (uint (int (l + t))) padding (uint b)
                       (uint k) (uint d) L D K;
                 w ← load2 weights (uint k ⊗ D ⊕ uint d);
                 Some (__hfma2 x w a))
              (load2 bias d) (seqZ 0 K) in
      [mkStore buf_out
         (uint b ⊗ D ⊗ L_out ⊕ uint (int (l + t)) ⊗ D ⊕ uint d) temp_sum]
    else []
  else [].

(** ** Launch *)

Definition dim3_range (n : dim3) : list dim3 :=
  z ← seqZ 0 (dim_z n); y ← seqZ 0 (dim_y n); x ← seqZ 0 (dim_x n);
  [Dim3 x y z].

(** The launch configurations the CUDA runtime accepts: every dimension
    at least 1; at most [2^31 - 1] blocks along x and 65535 along y and z;
    at most 1024 threads in a block, with at most 1024 along x and y and 64
    along z.  Any other configuration is refused: no thread runs. *)
Definition launch_accepted (gridDims blockDims : dim3) : bool :=
  (1 <=? dim_x gridDims) && (dim_x gridDims <=? 2147483647)
  && (1 <=? dim_y gridDims) && (dim_y gridDims <=? 65535)
  && (1 <=? dim_z gridDims) && (dim_z gridDims <=? 65535)
  && (1 <=? dim_x blockDims) && (dim_x blockDims <=? 1024)
  && (1 <=? dim_y blockDims) && (dim_y blockDims <=? 1024)
  && (1 <=? dim_z blockDims) && (dim_z blockDims <=? 64)
  && (dim_x blockDims * dim_y blockDims * dim_z blockDims <=? 1024).

(** [kernel<<<gridDims, blockDims>>>(...)]: the stores of all threads of an
    accepted launch, none for a refused one.  The source does not look at
    the error of a launch (lines 163-247), so after a refused launch the
    call goes on and returns the tensor as [torch::empty] left it.
    Threads do not communicate, the order chosen here is one schedule. *)
Definition launch (kernel : dim3 → dim3 → dim3 → list Store)
    (gridDims blockDims : dim3) : list Store :=
  if launch_accepted gridDims blockDims then
    blockIdx ← dim3_range gridDims;
    threadIdx ← dim3_range blockDims;
    kernel blockIdx blockDims threadIdx
  else [].

(** ** Device memory *)

Record Device := mkDevice {
  dev_u : list S;
  dev_weights : list S;
  dev_bias : list S;
  dev_out : list (option S)   (* [None]: never written since [torch::empty] *)
}.

Definition store_pair {A} (i : Z) (x y : A) (m : list A) : option (list A) :=
  if decide (0 ≤ i ∧ 2 * i + 1 < Z.of_nat (length m)) then
    Some (<[Z.to_nat (2 * i + 1) := y]> (<[Z.to_nat (2 * i) := x]> m))
  else None.

Definition store2 (s : Store) (m : Device) : option Device :=
  v ← st_val s;
  match st_buf s with
  | buf_u =>
      p ← store_pair (st_idx s) v.1 v.2 (dev_u m);
      Some (mkDevice p (dev_weights m) (dev_bias m) (dev_out m))
  | buf_weights =>
      p ← store_pair (st_idx s) v.1 v.2 (dev_weights m);
      Some (mkDevice (dev_u m) p (dev_bias m) (dev_out m))
  | buf_bias =>
      p ← store_pair (st_idx s) v.1 v.2 (dev_bias m);
      Some (mkDevice (dev_u m) (dev_weights m) p (dev_out m))
  | buf_out =>
      p ← store_pair (st_idx s) (Some v.1) (Some v.2) (dev_out m);
      Some (mkDevice (dev_u m) (dev_weights m) (dev_bias m) p)
  end.

Fixpoint exec (sts : list Store) (m : Device) : option Device :=
  match sts with
  | [] => Some m
  | s :: sts => m' ← store2 s m; exec sts m'
  end.

(** ** Host side *)

Record Tensor := mkTensor {
  dtype : ScalarType;
  sizes : list Z;
  data : list S
}.

(** [t.size(i)]; raises when [i] is not a dimension of [t]. *)
Definition size (t : Tensor) (i : nat) : option Z := sizes t !! i.

Record OutTensor := mkOut {
  out_dtype : ScalarType;
  out_sizes : list Z;
  out_data : option (list (option S))   (* [None]: the launch was undefined *)
}.

Inductive Result :=
  | Raised
  | Returned (stdout : list string) (out : OutTensor).

Definition kernel_of (kern : Kernel) :=
  match kern with
  | Generic => conv1d_kernel
  | Width3 => conv1d_kernel_k_3
  end.

(** The launch geometry and kernel arguments of lines 141-158. *)
Definition gridDims_of (b l_eff d k : Z) : dim3 :=
  Dim3 (ceil_div d (BX ⊗ TILE_SIZE_X ⊗ 2))
       (ceil_div (l_eff ⊖ k ⊕ 1) (BY ⊗ TILE_SIZE_Y))
       (ceil_div b BZ).

(** The stores of the kernel launched for sizes [b], [l], [d], [k]; none
    when the element type is not supported. *)
Definition conv1d_stores (dt : ScalarType) (u weight bias : list S)
    (padding b l d k : Z) : list Store :=
  let l_eff := l ⊕ 2 ⊗ padding in
  let blockDims := Dim3 BX BY BZ in
  let gridDims := gridDims_of b l_eff d k in
  let l_out := l ⊕ 2 ⊗ padding ⊖ k ⊕ 1 in
  match select_kernel k dt with
  | Some kern =>
      launch (kernel_of kern u weight bias padding b l l_out l_eff
                (uint (d `div` 2)) k) gridDims blockDims
  | None => []
  end.

(** Lines 135-250. *)
Definition conv1d_cuda_blh (u weight bias : Tensor) (padding : Z) : Result :=
  match size u 0, size u 1, size u 2, size weight 0 with
  | Some s0, Some s1, Some s2, Some w0 =>
      let b := uint s0 in
      let l := uint s1 in
      let d := uint s2 in
      let k := uint w0 in
      let l_out := l ⊕ 2 ⊗ padding ⊖ k ⊕ 1 in
      let empty := replicate (Z.to_nat (b * l_out * d)) None in
      let dev := mkDevice (data u) (data weight) (data bias) empty in
      let sts := conv1d_stores (dtype u) (data u) (data weight) (data bias)
                   padding b l d k in
      Returned
        (match select_kernel k (dtype u) with
         | Some _ => []
         | None => [unsupported_msg]
         end)
        (mkOut (dtype u) [b; l_out; d] (dev_out <$> exec sts dev))
  | _, _, _, _ => Raised
  end.

End Kernels.

Arguments vec2 S : clear implicits.
Arguments Store S : clear implicits.
Arguments Device S : clear implicits.
Arguments Tensor S : clear implicits.
Arguments OutTensor S : clear implicits.
Arguments Result S : clear implicits.


(** ** The specification's reading *)

Section Reference.
Context {S : Type} `{Repr S}.

(** [x[b, l, d]], [w[k, d]] and [bias[d]] of contiguous scalar arrays of
    shapes [_, L, D], [_, D] and [D]. *)
Definition at3 (x : list S) (L D b l d : Z) : S :=
  default f0 (x !! Z.to_nat (b * L * D + l * D + d)).
Definition at2 (w : list S) (D k d : Z) : S :=
  default f0 (w !! Z.to_nat (k * D + d)).
Definition at1 (bias : list S) (d : Z) : S :=
  default f0 (bias !! Z.to_nat d).

(** [input[b, l, d]] of a contiguous array of pairs of shape [_, L, D]. *)
Definition pair_at3 (input : list S) (L D b l d : Z) : option (vec2 S) :=
  load2 input (b * L * D + l * D + d).

(** Section 4.1 of the specification, over the integers. *)
Definition sample (input : list S) (L_eff l p b k d L D K : Z) : option (vec2 S) :=
  if (l + k <? p) || (l + k >? L_eff - (p + 1)) then Some zero2
  else pair_at3 input L D b (l + k - p) d.

(** The input of shape [B, L, D] with [p] zeros put before and after every
    sequence: shape [B, L + 2 p, D]. *)
Definition zero_pad (p B L D : Z) (x : list S) : list S :=
  b ← seqZ 0 B;
  replicate (Z.to_nat (p * D)) f0
  ++ take (Z.to_nat (L * D)) (drop (Z.to_nat (b * L * D)) x)
  ++ replicate (Z.to_nat (p * D)) f0.

(** The depthwise convolution without padding of an input of shape
    [B, L, D]: [out[b, l, d] = bias[d] + sum_k x[b, l + k, d] * w[k, d]],
    the sum taken tap by tap with the representation's multiply-add. *)
Definition out_elem (L D K : Z) (x w bias : list S) (b l d : Z) : S :=
  foldl (λ acc k, fmac (at3 x L D b (l + k) d) (at2 w D k d) acc)
        (at1 bias d) (seqZ 0 K).

Definition conv_unpadded (B L D K : Z) (x w bias : list S) : list S :=
  b ← seqZ 0 B; l ← seqZ 0 (L - K + 1); d ← seqZ 0 D;
  [out_elem L D K x w bias b l d].

Definition convolve_ref (p B L D K : Z) (x w bias : list S) : list S :=
  conv_unpadded B (L + 2 * p) D K (zero_pad p B L D x) w bias.

(** The elements of batch [b] in a contiguous array whose batches have
    [per] elements each. *)
Definition batch_slice {A} (per b : Z) (x : list A) : list A :=
  take (Z.to_nat per) (drop (Z.to_nat (b * per)) x).

(** The tensors of the worked example of the specification, with the
    integers embedded by [inj]. *)
Definition example_u (inj : Z → S) (dt : ScalarType) : Tensor S :=
  mkTensor dt [1; 5; 2] (inj <$> [1; 1; 2; 2; 3; 3; 4; 4; 5; 5]).
Definition example_weight (inj : Z → S) (dt : ScalarType) : Tensor S :=
  mkTensor dt [3; 2] (inj <$> [1; 1; 1; 1; 1; 1]).
Definition example_bias (inj : Z → S) (dt : ScalarType) : Tensor S :=
  mkTensor dt [2] (inj <$> [0; 0]).

End Reference.

(** ** The launch over the integers *)

Section Tiles.
Context {S : Type} `{Repr S}.

(** The pair the generic kernel stores at batch [b], position [l], channel
    pair [d] (lines 124-127). *)
Definition acc_value (u weights bias : list S) (padding L_eff L D K : Z)
    (b l d : Z) : option (vec2 S) :=
  foldl (λ temp_sum k,
           a ← temp_sum;
           x ← get_u u L_eff l padding b (uint k) d L D K;
           w ← load2 weights (uint k ⊗ D ⊕ d);
           Some (__hfma2 x w a))
        (load2 bias d) (seqZ 0 K).

(** Offset of the pair [(b, l, d)] in an output of [L_out] positions and
    [D] channel pairs. *)
Definition flat (L_out D b l d : Z) : Z := b * D * L_out + l * D + d.

(** The stores of thread [threadIdx] of block [blockIdx], with the index
    arithmetic of lines 71-85 carried out over the integers. *)
Definition tile (val : Z → Z → Z → option (vec2 S)) (B L_out D : Z)
    (blockIdx threadIdx : dim3) : list (Store S) :=
  i ← seqZ 0 2;
  let d := 1024 * dim_x blockIdx + dim_x threadIdx + 512 * i in
  if (d <? D) && (dim_z blockIdx <? B) then
    t ← seqZ 0 4;
    let l := 4 * dim_y blockIdx + t in
    if l <? L_out then
      [mkStore buf_out (flat L_out D (dim_z blockIdx) l d)
         (val (dim_z blockIdx) l d)]
    else []
  else [].

Definition tiles (val : Z → Z → Z → option (vec2 S)) (B L_out D : Z)
    (gridDims : dim3) : list (Store S) :=
  blockIdx ← dim3_range gridDims;
  threadIdx ← dim3_range (Dim3 BX BY BZ);
  tile val B L_out D blockIdx threadIdx.

(** Scalar offsets written by a list of pair stores. *)
Definition written (sts : list (Store S)) : list Z :=
  s ← sts; [2 * st_idx s; 2 * st_idx s + 1].

End Tiles.

(** ** IEEE 754 binary32, the representation whose multiply-add the source
    defines itself (lines 21-24) *)

Module Float32.

Definition prec : Z := 24.
Definition emax : Z := 128.

Definition of_Z (z : Z) : spec_float := binary_normalize prec emax z 0 false.

#[export] Instance repr : Repr spec_float := {|
  f0 := S754_zero false;
  fmac a b c := SFadd prec emax (SFmul prec emax a b) c
|}.

End Float32.

(** * Properties *)

(** ** Machine integers *)

Lemma uint_range z : 0 ≤ uint z < 2 ^ 32.
Proof. unfold uint. apply Z.mod_pos_bound. lia. Qed.

Lemma uint_small z : 0 ≤ z < 2 ^ 32 → uint z = z.
Proof. intros. unfold uint. apply Z.mod_small. lia. Qed.

Lemma uint_le z : 0 ≤ z → uint z ≤ z.
Proof. intros. unfold uint. apply Z.mod_le; lia. Qed.

Lemma uint_uint z : uint (uint z) = uint z.
Proof. unfold uint. apply Z.mod_mod. lia. Qed.

Lemma uint_int z : uint (int z) = uint z.
Proof.
  unfold uint, int.
  rewrite Zminus_mod_idemp_l.
  f_equal. lia.
Qed.

Lemma int_small z : - 2 ^ 31 ≤ z < 2 ^ 31 → int z = z.
Proof. intros. unfold int. rewrite Z.mod_small; lia. Qed.

Lemma int_uint_small z : uint z < 2 ^ 31 → int z = uint z.
Proof.
  intros Hz. pose proof (uint_range z).
  unfold int. rewrite <- Zplus_mod_idemp_l. fold (uint z).
  rewrite Z.mod_small; lia.
Qed.

Lemma uint_add_l a b : uint (uint a + b) = uint (a + b).
Proof. unfold uint. apply Zplus_mod_idemp_l. Qed.

Lemma uint_add_r a b : uint (a + uint b) = uint (a + b).
Proof. unfold uint. apply Zplus_mod_idemp_r. Qed.

Lemma uint_sub_l a b : uint (uint a - b) = uint (a - b).
Proof. unfold uint. apply Zminus_mod_idemp_l. Qed.

Lemma uint_sub_r a b : uint (a - uint b) = uint (a - b).
Proof. unfold uint. apply Zminus_mod_idemp_r. Qed.

Lemma uint_mul_l a b : uint (uint a * b) = uint (a * b).
Proof. unfold uint. apply Zmult_mod_idemp_l. Qed.

Lemma uint_mul_r a b : uint (a * uint b) = uint (a * b).
Proof. unfold uint. apply Zmult_mod_idemp_r. Qed.

(** Congruence modulo [2^32]: the sense in which wrapping arithmetic and
    the conversions agree with the integers. *)
Definition eqm32 (a b : Z) : Prop := uint a = uint b.

#[global] Instance eqm32_equiv : Equivalence eqm32.
Proof.
  split; unfold eqm32; [intros ?|intros ? ?|intros ? ? ?]; congruence.
Qed.

#[global] Instance eqm32_add : Proper (eqm32 ==> eqm32 ==> eqm32) Z.add.
Proof.
  intros a a' Ha b b' Hb. unfold eqm32 in *.
  rewrite <- (uint_add_l a), <- (uint_add_r _ b), Ha, Hb.
  rewrite uint_add_l, uint_add_r. reflexivity.
Qed.

#[global] Instance eqm32_sub : Proper (eqm32 ==> eqm32 ==> eqm32) Z.sub.
Proof.
  intros a a' Ha b b' Hb. unfold eqm32 in *.
  rewrite <- (uint_sub_l a), <- (uint_sub_r _ b), Ha, Hb.
  rewrite uint_sub_l, uint_sub_r. reflexivity.
Qed.

#[global] Instance eqm32_mul : Proper (eqm32 ==> eqm32 ==> eqm32) Z.mul.
Proof.
  intros a a' Ha b b' Hb. unfold eqm32 in *.
  rewrite <- (uint_mul_l a), <- (uint_mul_r _ b), Ha, Hb.
  rewrite uint_mul_l, uint_mul_r. reflexivity.
Qed.

#[global] Instance eqm32_uint : Proper (eqm32 ==> eqm32) uint.
Proof. intros a b Hab. unfold eqm32 in *. by rewrite !uint_uint. Qed.

#[global] Instance eqm32_int : Proper (eqm32 ==> eqm32) int.
Proof. intros a b Hab. unfold eqm32 in *. by rewrite !uint_int. Qed.

Lemma uint_eqm a : eqm32 (uint a) a.
Proof. apply uint_uint. Qed.

Lemma int_eqm a : eqm32 (int a) a.
Proof. apply uint_int. Qed.

Lemma uint_cong a b : eqm32 a b → uint a = uint b.
Proof. done. Qed.

(** [e] with every conversion [uint], [int] inside it removed. *)
Ltac strip_conv e :=
  let e1 :=
    lazymatch (eval pattern uint in e) with
    | ?f _ => let r := constr:(f (λ x : Z, x)) in eval cbv beta in r
    end in
  lazymatch (eval pattern int in e1) with
  | ?f _ => let r := constr:(f (λ x : Z, x)) in eval cbv beta in r
  end.

Ltac has_conv e :=
  first [ lazymatch e with context [uint _] => idtac end
        | lazymatch e with context [int _] => idtac end ].

(** Push every wrap of a [uint] expression to its root. *)
Ltac uint_norm :=
  unfold uadd, usub, umul;
  repeat match goal with
  | |- context [uint ?e] =>
      has_conv e;
      let e' := strip_conv e in
      rewrite (uint_cong e e')
        by (repeat first [rewrite uint_eqm | rewrite int_eqm]; reflexivity)
  end.

Lemma ceil_div_spec a b :
  0 ≤ a < 2 ^ 32 → 0 < b →
  ceil_div a b = (a + b - 1) `div` b ∧
  b * (ceil_div a b - 1) < a ≤ b * ceil_div a b.
Proof.
  intros Ha Hb.
  assert (E : - ((- a) `div` b) = (a + b - 1) `div` b).
  { pose proof (Z.div_mod (- a) b ltac:(lia)) as E1.
    pose proof (Z.mod_pos_bound (- a) b Hb) as B1.
    generalize dependent ((- a) `mod` b). generalize dependent ((- a) `div` b).
    intros q m E1 B1.
    apply (Z.div_unique_pos _ _ _ (b - 1 - m)); lia. }
  assert (R : 0 ≤ (a + b - 1) `div` b < 2 ^ 32).
  { split; [apply Z.div_pos; lia|].
    apply Z.div_lt_upper_bound; nia. }
  unfold ceil_div. rewrite E, uint_small by done.
  split; [done|].
  pose proof (Z.div_mod (a + b - 1) b ltac:(lia)).
  pose proof (Z.mod_pos_bound (a + b - 1) b Hb). lia.
Qed.

(** ** Dispatch *)

Section Dispatch.
Context {S : Type} `{Repr S}.

Lemma conv1d_cuda_blh_returned (u weight bias : Tensor S) padding B L D K :
  sizes u = [B; L; D] → size weight 0 = Some K →
  conv1d_cuda_blh u weight bias padding =
    let l_out := uint L ⊕ 2 ⊗ padding ⊖ uint K ⊕ 1 in
    Returned
      (match select_kernel (uint K) (dtype u) with
       | Some _ => []
       | None => [unsupported_msg]
       end)
      (mkOut (dtype u) [uint B; l_out; uint D]
         (dev_out <$>
            exec (conv1d_stores (dtype u) (data u) (data weight) (data bias)
                    padding (uint B) (uint L) (uint D) (uint K))
              (mkDevice (data u) (data weight) (data bias)
                 (replicate (Z.to_nat (uint B * l_out * uint D)) None)))).
Proof.
  intros Hu Hw. unfold conv1d_cuda_blh, size. rewrite Hu.
  unfold size in Hw. rewrite Hw. reflexivity.
Qed.

Lemma l_out_wrap L padding K :
  uint L ⊕ 2 ⊗ padding ⊖ uint K ⊕ 1 = (L + 2 * padding - K + 1) mod 2 ^ 32.
Proof. uint_norm. reflexivity. Qed.

(** C4.  The dispatcher launches the width-3 kernel exactly when the kernel
    width is 3 and the element type is bfloat16 or float32; for every other
    supported combination it launches the generic kernel, and float16 gets
    the generic kernel also at width 3.  Element types outside the three
    get no kernel. *)
Theorem select_kernel_spec (k : Z) (dt : ScalarType) :
  (select_kernel k dt = Some Width3 ↔ k = 3 ∧ (dt = kBFloat16 ∨ dt = kFloat32))
  ∧ (select_kernel k dt = Some Generic ↔
       supported dt = true ∧ ¬ (k = 3 ∧ (dt = kBFloat16 ∨ dt = kFloat32)))
  ∧ (select_kernel k dt = None ↔ supported dt = false)
  ∧ select_kernel 3 kFloat16 = Some Generic.
Proof.
  unfold select_kernel.
  destruct (Z.eqb_spec k 3) as [->|Hk]; destruct dt; cbn;
    repeat split; try discriminate; try tauto; try lia;
    try (intros [? [?|?]]; (discriminate || lia));
    try (intros [_ Hn]; exfalso; apply Hn; tauto);
    intuition (discriminate || lia).
Qed.

(** C8.  For an element type outside float16, bfloat16 and float32 the
    dispatcher selects no kernel, no store is performed, the message
    [Unsupported datatype] is printed, and the tensor returned has every
    element still unwritten. *)
Theorem unsupported_dtype (u weight bias : Tensor S) padding B L D K :
  supported (dtype u) = false →
  sizes u = [B; L; D] → size weight 0 = Some K →
  select_kernel (uint K) (dtype u) = None
  ∧ conv1d_stores (dtype u) (data u) (data weight) (data bias) padding
      (uint B) (uint L) (uint D) (uint K) = []
  ∧ ∃ out,
      conv1d_cuda_blh u weight bias padding = Returned [unsupported_msg] out
      ∧ out_data out
        = Some (replicate
                  (Z.to_nat (uint B * (uint L ⊕ 2 ⊗ padding ⊖ uint K ⊕ 1)
                             * uint D)) None).
Proof.
  intros Hdt Hu Hw.
  assert (Hsel : select_kernel (uint K) (dtype u) = None).
  { unfold select_kernel. destruct (_ =? _), (dtype u); done. }
  assert (Hst : conv1d_stores (dtype u) (data u) (data weight) (data bias)
                  padding (uint B) (uint L) (uint D) (uint K) = []).
  { unfold conv1d_stores. rewrite Hsel. reflexivity. }
  split; [done|]. split; [done|].
  eexists. split.
  - rewrite (conv1d_cuda_blh_returned _ _ _ _ _ _ _ _ Hu Hw).
    cbv zeta. rewrite Hsel, Hst. reflexivity.
  - reflexivity.
Qed.

(** C6, as the code has it.  The tensor returned has the shape
    [[B, L_out, D]] with [L_out = (L + 2 p - K + 1) mod 2^32]; this is
    [L + 2 p - K + 1] when [K <= L + 2 p + 1] and that value is below
    [2^32]. *)
Theorem out_length_mod (u weight bias : Tensor S) padding B L D K :
  sizes u = [B; L; D] → size weight 0 = Some K →
  0 ≤ B < 2 ^ 32 → 0 ≤ D < 2 ^ 32 →
  ∃ stdout out,
    conv1d_cuda_blh u weight bias padding = Returned stdout out
    ∧ out_sizes out = [B; (L + 2 * padding - K + 1) `mod` 2 ^ 32; D]
    ∧ (K ≤ L + 2 * padding + 1 → L + 2 * padding + 1 - K < 2 ^ 32 →
       out_sizes out = [B; L + 2 * padding - K + 1; D]).
Proof.
  intros Hu Hw HB HD.
  rewrite (conv1d_cuda_blh_returned _ _ _ _ _ _ _ _ Hu Hw). cbv zeta.
  do 2 eexists. split; [reflexivity|]. cbn [out_sizes].
  rewrite l_out_wrap, !uint_small by done.
  split; [done|]. intros ? ?. rewrite Z.mod_small by lia. done.
Qed.

End Dispatch.

(** ** The sampler *)

Section Sampler.
Context {S : Type} `{Repr S}.

Lemma load2_Some (p : list S) i x y :
  load2 p i = Some (x, y) ↔
  0 ≤ i ∧ p !! Z.to_nat (2 * i) = Some x ∧ p !! Z.to_nat (2 * i + 1) = Some y.
Proof.
  unfold load2. case_decide as Hi; [|split; [done|intros [? _]; lia]].
  destruct (p !! Z.to_nat (2 * i)) as [x'|]; cbn;
    [|split; [done|intros (_ & ? & _); done]].
  destruct (p !! Z.to_nat (2 * i + 1)) as [y'|]; cbn;
    [|split; [done|intros (_ & _ & ?); done]].
  split; [intros [= -> ->]; done|intros (_ & [= ->] & [= ->]); done].
Qed.

Lemma load2_is_Some (p : list S) i :
  0 ≤ i → 2 * i + 1 < Z.of_nat (length p) → is_Some (load2 p i).
Proof.
  intros Hi Hlen.
  destruct (lookup_lt_is_Some_2 p (Z.to_nat (2 * i)) ltac:(lia)) as [x Hx].
  destruct (lookup_lt_is_Some_2 p (Z.to_nat (2 * i + 1)) ltac:(lia)) as [y Hy].
  exists (x, y). apply load2_Some. done.
Qed.

Lemma get_u_unfold (u : list S) L_eff l p b k d L D K :
  get_u u L_eff l p b k d L D K =
    if (uint (l + k) <? p) || (uint (l + k) >? uint (L_eff - (p + 1)))
    then Some zero2
    else load2 u (uint (b * L * D + (l + k - p) * D + d)).
Proof. unfold get_u. uint_norm. reflexivity. Qed.

(** C2.  On [uint] arguments whose sum [l + k], difference
    [L_eff - (p + 1)] and flat index stay within [uint], the sampler is
    the function [sample] of the specification: the zero pair of the
    representation when [l + k < p] or [l + k > L_eff - (p + 1)], and
    [input[b, l + k - p, d]] otherwise.  The statement is the same for every
    representation; only [zero2] depends on it. *)
Theorem get_u_sample (u : list S) L_eff l p b k d L D K :
  0 ≤ l → 0 ≤ k → l + k < 2 ^ 32 →
  0 ≤ p → p + 1 ≤ L_eff < 2 ^ 32 →
  0 ≤ b → 0 ≤ L → 0 ≤ D → 0 ≤ d →
  b * L * D + (l + k) * D + d < 2 ^ 32 →
  get_u u L_eff l p b k d L D K = sample u L_eff l p b k d L D K.
Proof.
  intros Hl Hk Hlk Hp HLe Hb HL HD Hd Hidx.
  rewrite get_u_unfold. unfold sample, pair_at3.
  rewrite (uint_small (l + k)), (uint_small (L_eff - (p + 1))) by lia.
  destruct (_ || _) eqn:G; [done|].
  apply orb_false_iff in G as [G1 G2].
  apply Z.ltb_ge in G1.
  rewrite uint_small; [done|].
  assert (0 ≤ b * L * D) by (apply Z.mul_nonneg_nonneg; lia).
  assert (0 ≤ (l + k - p) * D ≤ (l + k) * D) by nia.
  lia.
Qed.

(** C10.  At every coordinate a kernel computes (channel pair [d < D],
    batch [b < B], position [l < L_out], tap [k < K], with [K <= L + 2 p])
    the sampler's read is inside the input: when the guard fails,
    [p <= l + k <= L_eff - (p + 1)], so [0 <= l + k - p <= L - 1] and the
    flat index, with or without wrap-around, is below [B * L * D]; the
    sampler therefore returns a value. *)
Theorem get_u_in_bounds (u : list S) B L D K p b l d k :
  0 ≤ B → 0 ≤ L → 0 ≤ D → 0 ≤ p → L + 2 * p < 2 ^ 32 →
  K ≤ L + 2 * p →
  0 ≤ b < B → 0 ≤ d < D → 0 ≤ l < L + 2 * p - K + 1 → 0 ≤ k < K →
  Z.of_nat (length u) = 2 * (B * L * D) →
  let L_eff := L + 2 * p in
  ((l ⊕ k <? p) || (l ⊕ k >? L_eff ⊖ (p ⊕ 1)) = false →
     p ≤ l + k ≤ L_eff - (p + 1)
     ∧ 0 ≤ l + k - p ≤ L - 1
     ∧ 0 ≤ b * L * D + (l + k - p) * D + d < B * L * D
     ∧ 0 ≤ b ⊗ L ⊗ D ⊕ (l ⊕ k ⊖ p) ⊗ D ⊕ d < B * L * D)
  ∧ is_Some (get_u u L_eff l p b k d L D K).
Proof.
  intros HB HL HD Hp HLe HK Hb Hd Hl Hk Hlen L_eff.
  assert (Hguard : (l ⊕ k <? p) || (l ⊕ k >? L_eff ⊖ (p ⊕ 1)) = false →
            p ≤ l + k ≤ L_eff - (p + 1)).
  { intros G. apply orb_false_iff in G as [G1 G2]. revert G1 G2.
    uint_norm. subst L_eff.
    rewrite (uint_small (l + k)), (uint_small (L + 2 * p - (p + 1))) by lia.
    intros G1%Z.ltb_ge G2. rewrite Z.gtb_ltb in G2.
    apply Z.ltb_ge in G2. lia. }
  assert (Hin : p ≤ l + k ≤ L_eff - (p + 1) →
            0 ≤ b * L * D + (l + k - p) * D + d < B * L * D).
  { subst L_eff. intros Hr.
    assert (0 ≤ b * L * D) by (apply Z.mul_nonneg_nonneg; nia).
    assert (0 ≤ (l + k - p) * D) by nia.
    assert (b * L * D ≤ (B - 1) * L * D).
    { apply Z.mul_le_mono_nonneg_r; [lia|].
      apply Z.mul_le_mono_nonneg_r; lia. }
    assert ((l + k - p) * D ≤ (L - 1) * D)
      by (apply Z.mul_le_mono_nonneg_r; lia).
    lia. }
  assert (Hw : b ⊗ L ⊗ D ⊕ (l ⊕ k ⊖ p) ⊗ D ⊕ d
               = uint (b * L * D + (l + k - p) * D + d)).
  { uint_norm. reflexivity. }
  split.
  - intros G. specialize (Hguard G). specialize (Hin Hguard).
    split; [done|]. split; [subst L_eff; lia|]. split; [done|].
    rewrite Hw. pose proof (uint_range (b * L * D + (l + k - p) * D + d)).
    pose proof (uint_le (b * L * D + (l + k - p) * D + d)). lia.
  - unfold get_u. destruct (_ || _) eqn:G; [done|].
    specialize (Hin (Hguard eq_refl)).
    rewrite Hw. pose proof (uint_range (b * L * D + (l + k - p) * D + d)).
    pose proof (uint_le (b * L * D + (l + k - p) * D + d)).
    apply load2_is_Some; lia.
Qed.

End Sampler.

(** ** The two kernels *)

Section TwoKernels.
Context {S : Type} `{Repr S}.

Lemma list_bind_ext_in {A B} (f g : A → list B) (l : list A) :
  (∀ x, x ∈ l → f x = g x) → l ≫= f = l ≫= g.
Proof.
  induction l as [|a l IH]; intros Hfg; [done|].
  rewrite !bind_cons, Hfg, IH; [done| |left].
  intros x Hx. apply Hfg. by right.
Qed.

(** One thread of the width-3 kernel performs the stores of one thread of
    the generic kernel at [K = 3], whenever the channel-pair count is at
    most [2^31]. *)
Lemma conv1d_kernel_k_3_generic (u weights bias : list S)
    padding B L L_out L_eff D blockIdx blockDim threadIdx :
  D ≤ 2 ^ 31 →
  conv1d_kernel_k_3 u weights bias padding B L L_out L_eff D 3
    blockIdx blockDim threadIdx
  = conv1d_kernel u weights bias padding B L L_out L_eff D 3
      blockIdx blockDim threadIdx.
Proof.
  intros HD. unfold conv1d_kernel_k_3, conv1d_kernel. cbv zeta.
  apply list_bind_ext_in. intros i _.
  set (d := uint (int _) ⊕ _ ⊕ _).
  set (l := _ ⊗ _ ⊗ TILE_SIZE_Y ⊕ _). set (b := dim_z blockIdx ⊗ _ ⊕ _).
  destruct (_ && _) eqn:G; [|done].
  apply andb_true_iff in G as [Gd%Z.ltb_lt _].
  apply list_bind_ext_in. intros t _.
  destruct (_ <? _) eqn:Gl; [|done].
  unfold _conv1d_k_3.
  assert (Hlt : uint (int l) ⊕ uint t = uint (int (int l + t))).
  { uint_norm. reflexivity. }
  assert (Hd : uint (int d) = int d).
  { rewrite uint_int in Gd |- *. symmetry. apply int_uint_small. lia. }
  rewrite Hlt, Hd. clearbody d l b.
  assert (Eseq : seqZ 0 3 = [0; 1; 2]) by (vm_compute; reflexivity).
  rewrite Eseq. cbn [foldl].
  rewrite (uint_small 0), (uint_small 1), (uint_small 2) by lia.
  reflexivity.
Qed.

(** C3.  At kernel width 3 the width-3 kernel and the generic kernel perform
    the same stores, thread by thread and over a whole launch; [D] is the
    channel-pair count the dispatcher passes, half of a [uint]. *)
Theorem width3_generic_equiv (u weights bias : list S)
    padding B L L_out L_eff d :
  let D := uint (uint d `div` 2) in
  (∀ blockIdx blockDim threadIdx,
     conv1d_kernel_k_3 u weights bias padding B L L_out L_eff D 3
       blockIdx blockDim threadIdx
     = conv1d_kernel u weights bias padding B L L_out L_eff D 3
         blockIdx blockDim threadIdx)
  ∧ (∀ gridDims blockDims,
       launch (conv1d_kernel_k_3 u weights bias padding B L L_out L_eff D 3)
         gridDims blockDims
       = launch (conv1d_kernel u weights bias padding B L L_out L_eff D 3)
           gridDims blockDims).
Proof.
  intros D.
  assert (HD : D ≤ 2 ^ 31).
  { subst D. pose proof (uint_range d).
    assert (0 ≤ uint d `div` 2 < 2 ^ 31).
    { split; [apply Z.div_pos; lia|apply Z.div_lt_upper_bound; lia]. }
    rewrite uint_small; lia. }
  split.
  - intros. by apply conv1d_kernel_k_3_generic.
  - intros. unfold launch. destruct (launch_accepted _ _); [|done].
    apply list_bind_ext_in. intros bi _.
    apply list_bind_ext_in. intros ti _.
    by apply conv1d_kernel_k_3_generic.
Qed.

End TwoKernels.

(** ** From the kernels to tiles *)

Section KernelTiles.
Context {S : Type} `{Repr S}.

Lemma elem_of_dim3_range (n c : dim3) :
  c ∈ dim3_range n ↔
  0 ≤ dim_x c < dim_x n ∧ 0 ≤ dim_y c < dim_y n ∧ 0 ≤ dim_z c < dim_z n.
Proof.
  unfold dim3_range. rewrite list_elem_of_bind. split.
  - intros (z & (y & (x & ->%list_elem_of_singleton & Hx%elem_of_seqZ)
                   %list_elem_of_bind & Hy%elem_of_seqZ)%list_elem_of_bind
              & Hz%elem_of_seqZ).
    cbn. lia.
  - intros (Hx & Hy & Hz). destruct c as [x y z]; cbn in *.
    exists z. split; [|apply elem_of_seqZ; lia].
    apply list_elem_of_bind. exists y. split; [|apply elem_of_seqZ; lia].
    apply list_elem_of_bind. exists x. split; [|apply elem_of_seqZ; lia].
    by apply list_elem_of_singleton.
Qed.

Lemma NoDup_dim3_range (n : dim3) : NoDup (dim3_range n).
Proof.
  unfold dim3_range.
  apply NoDup_bind; [| |apply NoDup_seqZ].
  - intros z1 z2 c _ _
      (y1 & (x1 & ->%list_elem_of_singleton & _)%list_elem_of_bind & _)
        %list_elem_of_bind
      (y2 & (x2 & [= _ _ ->]%list_elem_of_singleton & _)%list_elem_of_bind & _)
        %list_elem_of_bind.
    done.
  - intros z _. apply NoDup_bind; [| |apply NoDup_seqZ].
    + intros y1 y2 c _ _
        (x1 & ->%list_elem_of_singleton & _)%list_elem_of_bind
        (x2 & [= _ ->]%list_elem_of_singleton & _)%list_elem_of_bind.
      done.
    + intros y _. apply NoDup_bind; [| |apply NoDup_seqZ].
      * intros x1 x2 c _ _ ->%list_elem_of_singleton
          [= ->]%list_elem_of_singleton. done.
      * intros x _. apply NoDup_singleton.
Qed.

(** Sizes for which no index computation of a launch wraps around. *)
Record fits (B L_out D : Z) (gridDims : dim3) : Prop := {
  fits_B : 0 ≤ B;
  fits_L : 0 ≤ L_out < 2 ^ 32;
  fits_D : 0 ≤ D ≤ 2 ^ 31;
  fits_out : B * L_out * D ≤ 2 ^ 32;
  fits_x : 1024 * dim_x gridDims ≤ 2 ^ 31;
  fits_y : 4 * dim_y gridDims ≤ 2 ^ 32;
  fits_z : dim_z gridDims ≤ 2 ^ 32
}.

Lemma flat_range B L_out D b l d :
  0 ≤ b < B → 0 ≤ l < L_out → 0 ≤ d < D →
  0 ≤ flat L_out D b l d < B * L_out * D.
Proof.
  intros Hb Hl Hd. unfold flat.
  assert (0 ≤ b * D * L_out) by (apply Z.mul_nonneg_nonneg; nia).
  assert (0 ≤ l * D) by nia.
  assert (b * D * L_out ≤ (B - 1) * D * L_out).
  { apply Z.mul_le_mono_nonneg_r; [lia|].
    apply Z.mul_le_mono_nonneg_r; lia. }
  assert (l * D ≤ (L_out - 1) * D) by (apply Z.mul_le_mono_nonneg_r; lia).
  lia.
Qed.

Lemma conv1d_kernel_tile (u weights bias : list S)
    padding B L L_out L_eff D K gridDims blockIdx threadIdx :
  fits B L_out D gridDims →
  L_eff ⊖ K ⊕ 1 = L_out →
  blockIdx ∈ dim3_range gridDims →
  threadIdx ∈ dim3_range (Dim3 BX BY BZ) →
  conv1d_kernel u weights bias padding B L L_out L_eff D K
    blockIdx (Dim3 BX BY BZ) threadIdx
  = tile (acc_value u weights bias padding L_eff L D K) B L_out D
      blockIdx threadIdx.
Proof.
  intros [HB HL HD Hout Hx Hy Hz] HLo
    (Hbx & Hby & Hbz)%elem_of_dim3_range (Htx & Hty & Htz)%elem_of_dim3_range.
  destruct blockIdx as [bx by_ bz], threadIdx as [tx ty tz].
  unfold BX, BY, BZ in *. cbn [dim_x dim_y dim_z] in *.
  assert (ty = 0) as -> by lia. assert (tz = 0) as -> by lia.
  unfold conv1d_kernel, tile. cbv zeta. cbn [dim_x dim_y dim_z].
  unfold BX, TILE_SIZE_X, TILE_SIZE_Y. rewrite HLo.
  apply list_bind_ext_in. intros i Hi%elem_of_seqZ.
  assert (Ed : uint (int (bx ⊗ 512 ⊗ 2)) ⊕ tx ⊕ uint i ⊗ 512
               = 1024 * bx + tx + 512 * i).
  { uint_norm. rewrite uint_small; lia. }
  assert (Eb : uint (int (bz ⊗ 1 ⊕ 0)) = bz).
  { uint_norm. rewrite uint_small; lia. }
  rewrite Ed, Eb.
  set (d := 1024 * bx + tx + 512 * i).
  assert (Eud : uint (int d) = d).
  { uint_norm. rewrite uint_small; subst d; lia. }
  assert (Eid : int d = d) by (apply int_small; subst d; lia).
  rewrite Eud.
  destruct (_ && _) eqn:G; [|done].
  apply andb_true_iff in G as [Gd%Z.ltb_lt Gb%Z.ltb_lt].
  apply list_bind_ext_in. intros t Ht%elem_of_seqZ.
  assert (El : uint (int (int (by_ ⊗ 1 ⊗ 4 ⊕ 0 ⊗ 4) + t)) = 4 * by_ + t).
  { uint_norm. rewrite uint_small; lia. }
  rewrite El.
  destruct (_ <? _) eqn:Gl; [|done]. apply Z.ltb_lt in Gl.
  rewrite Eid. unfold acc_value. do 2 f_equal.
  uint_norm. apply uint_small.
  pose proof (flat_range B L_out D bz (4 * by_ + t) d
                ltac:(lia) ltac:(lia) ltac:(subst d; lia)) as Hf.
  unfold flat in *. lia.
Qed.

Lemma launch_accepted_iff (g : dim3) :
  launch_accepted g (Dim3 BX BY BZ) = true ↔
  1 ≤ dim_x g ≤ 2147483647 ∧ 1 ≤ dim_y g ≤ 65535 ∧ 1 ≤ dim_z g ≤ 65535.
Proof.
  unfold launch_accepted, BX, BY, BZ. cbn [dim_x dim_y dim_z].
  rewrite !andb_true_iff, !Z.leb_le. lia.
Qed.

Lemma dim3_range_nil (g : dim3) :
  dim_x g < 1 ∨ dim_y g < 1 ∨ dim_z g < 1 → dim3_range g = [].
Proof.
  intros Hg. apply elem_of_nil_inv. intros c Hc%elem_of_dim3_range. lia.
Qed.

(** A launch within the limits on the number of blocks performs the stores
    of the tiles of its grid. *)
Lemma launch_tiles (kern : Kernel) (u weights bias : list S)
    padding B L L_out L_eff D K gridDims :
  fits B L_out D gridDims →
  dim_y gridDims ≤ 65535 → dim_z gridDims ≤ 65535 →
  L_eff ⊖ K ⊕ 1 = L_out →
  (kern = Width3 → K = 3) →
  launch (kernel_of kern u weights bias padding B L L_out L_eff D K)
    gridDims (Dim3 BX BY BZ)
  = tiles (acc_value u weights bias padding L_eff L D K) B L_out D gridDims.
Proof.
  intros Hfits Hy Hz HLo Hk. unfold launch, tiles.
  destruct (launch_accepted _ _) eqn:Hacc; cycle 1.
  { rewrite (dim3_range_nil gridDims); [done|].
    destruct (decide (1 ≤ dim_x gridDims ∧ 1 ≤ dim_y gridDims
                      ∧ 1 ≤ dim_z gridDims)) as [Hge|Hlt]; [|lia].
    assert (launch_accepted gridDims (Dim3 BX BY BZ) = true); [|congruence].
    apply launch_accepted_iff. destruct Hfits as [_ _ _ _ Hx _ _]. lia. }
  apply list_bind_ext_in. intros bi Hbi.
  apply list_bind_ext_in. intros ti Hti.
  destruct kern; cbn [kernel_of].
  - by eapply conv1d_kernel_tile.
  - rewrite Hk by done. rewrite conv1d_kernel_k_3_generic.
    + rewrite Hk in HLo by done. by eapply conv1d_kernel_tile.
    + by destruct Hfits as [_ _ [_ ?] _ _ _ _].
Qed.

Lemma flat_inj L_out D b1 l1 d1 b2 l2 d2 :
  0 ≤ l1 < L_out → 0 ≤ l2 < L_out → 0 ≤ d1 < D → 0 ≤ d2 < D →
  flat L_out D b1 l1 d1 = flat L_out D b2 l2 d2 →
  b1 = b2 ∧ l1 = l2 ∧ d1 = d2.
Proof.
  intros Hl1 Hl2 Hd1 Hd2 E. unfold flat in E.
  destruct (Z.div_mod_unique D (b1 * L_out + l1) (b2 * L_out + l2) d1 d2)
    as [E1 E2]; [lia|lia|lia|].
  destruct (Z.div_mod_unique L_out b1 b2 l1 l2); [lia|lia|lia|].
  done.
Qed.

Lemma elem_of_tile (val : Z → Z → Z → option (vec2 S)) B L_out D bi ti s :
  s ∈ tile val B L_out D bi ti ↔
  ∃ i t, 0 ≤ i < 2 ∧ 0 ≤ t < 4
    ∧ 1024 * dim_x bi + dim_x ti + 512 * i < D
    ∧ dim_z bi < B
    ∧ 4 * dim_y bi + t < L_out
    ∧ s = mkStore buf_out
            (flat L_out D (dim_z bi) (4 * dim_y bi + t)
               (1024 * dim_x bi + dim_x ti + 512 * i))
            (val (dim_z bi) (4 * dim_y bi + t)
               (1024 * dim_x bi + dim_x ti + 512 * i)).
Proof.
  unfold tile. rewrite list_elem_of_bind. split.
  - intros (i & Hs & Hi%elem_of_seqZ). cbv zeta in Hs.
    destruct (_ && _) eqn:G; [|by apply not_elem_of_nil in Hs].
    apply andb_true_iff in G as [Gd%Z.ltb_lt Gb%Z.ltb_lt].
    apply list_elem_of_bind in Hs as (t & Hs & Ht%elem_of_seqZ).
    destruct (_ <? _) eqn:Gl; [|by apply not_elem_of_nil in Hs].
    apply Z.ltb_lt in Gl. apply list_elem_of_singleton in Hs.
    exists i, t. repeat split; (lia || done).
  - intros (i & t & Hi & Ht & Gd & Gb & Gl & ->).
    exists i. split; [|apply elem_of_seqZ; lia]. cbv zeta.
    apply Z.ltb_lt in Gd, Gb, Gl. rewrite Gd, Gb. cbn.
    apply list_elem_of_bind. exists t. split; [|apply elem_of_seqZ; lia].
    rewrite Gl. by apply list_elem_of_singleton.
Qed.

(** The stores of a launch, by output coordinate. *)
Lemma elem_of_tiles (val : Z → Z → Z → option (vec2 S)) B L_out D g s :
  s ∈ tiles val B L_out D g ↔
  ∃ b l d,
    0 ≤ b < B ∧ b < dim_z g
    ∧ 0 ≤ l < L_out ∧ l < 4 * dim_y g
    ∧ 0 ≤ d < D ∧ d < 1024 * dim_x g
    ∧ s = mkStore buf_out (flat L_out D b l d) (val b l d).
Proof.
  unfold tiles. rewrite list_elem_of_bind. split.
  - intros (bi & (ti & Hs%elem_of_tile & Hti%elem_of_dim3_range)
                   %list_elem_of_bind & Hbi%elem_of_dim3_range).
    destruct Hs as (i & t & Hi & Ht & Gd & Gb & Gl & ->).
    unfold BX, BY, BZ in Hti. cbn in Hti.
    eexists _, _, _. split_and!; [..|reflexivity]; lia.
  - intros (b & l & d & Hb & Hbg & Hl & Hlg & Hd & Hdg & ->).
    pose proof (Z.div_mod d 1024 ltac:(lia)) as E1.
    pose proof (Z.mod_pos_bound d 1024 ltac:(lia)) as B1.
    pose proof (Z.div_mod (d `mod` 1024) 512 ltac:(lia)) as E2.
    pose proof (Z.mod_pos_bound (d `mod` 1024) 512 ltac:(lia)) as B2.
    pose proof (Z.div_mod l 4 ltac:(lia)) as E3.
    pose proof (Z.mod_pos_bound l 4 ltac:(lia)) as B3.
    set (bx := d `div` 1024) in *. set (r := d `mod` 1024) in *.
    set (i := r `div` 512) in *. set (tx := r `mod` 512) in *.
    set (by_ := l `div` 4) in *. set (t := l `mod` 4) in *.
    exists (Dim3 bx by_ b). split.
    + apply list_elem_of_bind. exists (Dim3 tx 0 0). split.
      * apply elem_of_tile. exists i, t. cbn [dim_x dim_y dim_z].
        replace (1024 * bx + tx + 512 * i) with d by lia.
        replace (4 * by_ + t) with l by lia.
        split_and!; (lia || done).
      * apply elem_of_dim3_range. unfold BX, BY, BZ. cbn. lia.
    + apply elem_of_dim3_range. cbn. lia.
Qed.

Lemma NoDup_tile (val : Z → Z → Z → option (vec2 S)) B L_out D bi ti :
  0 ≤ dim_x bi → 0 ≤ dim_y bi → 0 ≤ dim_x ti →
  NoDup (tile val B L_out D bi ti).
Proof.
  intros Hbx Hby Htx.
  unfold tile. apply NoDup_bind; [| |apply NoDup_seqZ].
  - intros i1 i2 s Hi1%elem_of_seqZ Hi2%elem_of_seqZ Hs1 Hs2. cbv zeta in *.
    destruct (_ && _) eqn:G1 in Hs1; [|by apply not_elem_of_nil in Hs1].
    destruct (_ && _) eqn:G2 in Hs2; [|by apply not_elem_of_nil in Hs2].
    apply andb_true_iff in G1 as [G1%Z.ltb_lt _].
    apply andb_true_iff in G2 as [G2%Z.ltb_lt _].
    apply list_elem_of_bind in Hs1 as (t1 & Hs1 & Ht1%elem_of_seqZ).
    apply list_elem_of_bind in Hs2 as (t2 & Hs2 & Ht2%elem_of_seqZ).
    destruct (_ <? _) eqn:Gl1 in Hs1; [|by apply not_elem_of_nil in Hs1].
    destruct (_ <? _) eqn:Gl2 in Hs2; [|by apply not_elem_of_nil in Hs2].
    apply Z.ltb_lt in Gl1, Gl2.
    apply list_elem_of_singleton in Hs1, Hs2. subst s.
    injection Hs2 as E _.
    apply flat_inj in E as (_ & _ & E); lia.
  - intros i Hi%elem_of_seqZ. cbv zeta.
    destruct (_ && _) eqn:G; [|apply NoDup_nil_2].
    apply andb_true_iff in G as [G%Z.ltb_lt _].
    apply NoDup_bind; [| |apply NoDup_seqZ].
    + intros t1 t2 s Ht1%elem_of_seqZ Ht2%elem_of_seqZ Hs1 Hs2.
      destruct (_ <? _) eqn:Gl1 in Hs1; [|by apply not_elem_of_nil in Hs1].
      destruct (_ <? _) eqn:Gl2 in Hs2; [|by apply not_elem_of_nil in Hs2].
      apply Z.ltb_lt in Gl1, Gl2.
      apply list_elem_of_singleton in Hs1, Hs2. subst s.
      injection Hs2 as E _.
      apply flat_inj in E as (_ & E & _); lia.
    + intros t _. destruct (_ <? _); [apply NoDup_singleton|apply NoDup_nil_2].
Qed.

(** No two stores of a launch go to the same pair of the output. *)
Lemma NoDup_tiles (val : Z → Z → Z → option (vec2 S)) B L_out D g :
  NoDup (st_idx <$> tiles val B L_out D g).
Proof.
  apply NoDup_fmap_2_strong.
  - intros s1 s2 (b1 & l1 & d1 & ? & _ & ? & _ & ? & _ & ->)%elem_of_tiles
      (b2 & l2 & d2 & ? & _ & ? & _ & ? & _ & ->)%elem_of_tiles E.
    cbn in E. apply flat_inj in E as (-> & -> & ->); done.
  - unfold tiles. apply NoDup_bind; [| |apply NoDup_dim3_range].
    + intros bi1 bi2 s Hbi1%elem_of_dim3_range Hbi2%elem_of_dim3_range
        (ti1 & Hs1%elem_of_tile & Hti1%elem_of_dim3_range)%list_elem_of_bind
        (ti2 & Hs2%elem_of_tile & Hti2%elem_of_dim3_range)%list_elem_of_bind.
      destruct Hs1 as (i1 & t1 & ? & ? & ? & ? & ? & ->).
      destruct Hs2 as (i2 & t2 & ? & ? & ? & ? & ? & E).
      unfold BX, BY, BZ in *. cbn in Hti1, Hti2.
      injection E as E _. apply flat_inj in E as (Eb & El & Ed); [|lia..].
      destruct bi1, bi2; cbn in *. f_equal; lia.
    + intros bi Hbi%elem_of_dim3_range.
      apply NoDup_bind; [| |apply NoDup_dim3_range].
      * intros ti1 ti2 s Hti1%elem_of_dim3_range Hti2%elem_of_dim3_range
          (i1 & t1 & ? & ? & ? & ? & ? & ->)%elem_of_tile
          (i2 & t2 & ? & ? & ? & ? & ? & E)%elem_of_tile.
        unfold BX, BY, BZ in *. cbn in Hti1, Hti2.
        injection E as E _. apply flat_inj in E as (Eb & El & Ed); [|lia..].
        destruct ti1, ti2; cbn in *. f_equal; lia.
      * intros ti Hti%elem_of_dim3_range. apply NoDup_tile; lia.
Qed.

End KernelTiles.

(** ** Which elements a launch writes *)

Section Partition.
Context {S : Type} `{Repr S}.

Lemma flat_decode B L_out D i :
  0 ≤ i < B * L_out * D → 0 ≤ B → 0 ≤ L_out → 0 ≤ D →
  ∃ b l d, 0 ≤ b < B ∧ 0 ≤ l < L_out ∧ 0 ≤ d < D ∧ i = flat L_out D b l d.
Proof.
  intros Hi HB HL HD.
  assert (0 < D) by nia. assert (0 < L_out) by nia.
  pose proof (Z.div_mod i D ltac:(lia)) as E1.
  pose proof (Z.mod_pos_bound i D ltac:(lia)) as B1.
  pose proof (Z.div_mod (i `div` D) L_out ltac:(lia)) as E2.
  pose proof (Z.mod_pos_bound (i `div` D) L_out ltac:(lia)) as B2.
  set (d := i `mod` D) in *. set (q := i `div` D) in *.
  set (l := q `mod` L_out) in *. set (b := q `div` L_out) in *.
  exists b, l, d. unfold flat.
  assert (0 ≤ q) by (apply Z.div_pos; lia).
  assert (0 ≤ b) by (apply Z.div_pos; lia).
  split_and!; try lia.
  destruct (Z_lt_le_dec b B) as [?|Hge]; [done|exfalso].
  assert (B * L_out ≤ b * L_out) by (apply Z.mul_le_mono_nonneg_r; lia).
  assert (B * L_out * D ≤ q * D) by (apply Z.mul_le_mono_nonneg_r; lia).
  lia.
Qed.

(** A grid that reaches every output coordinate. *)
Definition covers (B L_out D : Z) (g : dim3) : Prop :=
  B ≤ dim_z g ∧ L_out ≤ 4 * dim_y g ∧ D ≤ 1024 * dim_x g.

Lemma tiles_indices (val : Z → Z → Z → option (vec2 S)) B L_out D g :
  0 ≤ B → 0 ≤ L_out → 0 ≤ D → covers B L_out D g →
  st_idx <$> tiles val B L_out D g ≡ₚ seqZ 0 (B * L_out * D).
Proof.
  intros HB HL HD (Hz & Hy & Hx).
  apply NoDup_Permutation; [apply NoDup_tiles|apply NoDup_seqZ|].
  intros i. rewrite list_elem_of_fmap, elem_of_seqZ. split.
  - intros (s & -> & (b & l & d & ? & _ & ? & _ & ? & _ & ->)%elem_of_tiles).
    cbn. pose proof (flat_range B L_out D b l d). lia.
  - intros Hi.
    destruct (flat_decode B L_out D i) as (b & l & d & ? & ? & ? & ->);
      [lia..|].
    eexists. split; [|apply elem_of_tiles; exists b, l, d;
      split_and!; [..|reflexivity]; lia].
    done.
Qed.

Lemma seqZ_pairs_nat (k : nat) :
  seqZ 0 (2 * Z.of_nat k) = seqZ 0 (Z.of_nat k) ≫= λ i, [2 * i; 2 * i + 1].
Proof.
  induction k as [|k IH]; [done|].
  rewrite seqZ_S, bind_app, <- IH.
  replace (2 * Z.of_nat (Datatypes.S k)) with (2 * Z.of_nat k + 2) by lia.
  rewrite seqZ_app by lia. f_equal.
  cbn. rewrite !Z.add_0_l.
  rewrite (seqZ_cons _ 2) by lia. rewrite (seqZ_cons _ (Z.pred 2)) by lia.
  rewrite seqZ_nil by lia. done.
Qed.

Lemma seqZ_pairs n :
  0 ≤ n → seqZ 0 (2 * n) = seqZ 0 n ≫= λ i, [2 * i; 2 * i + 1].
Proof.
  intros Hn. rewrite <- (Z2Nat.id n) at 1 2 by done. apply seqZ_pairs_nat.
Qed.

Lemma tiles_written (val : Z → Z → Z → option (vec2 S)) B L_out D g :
  0 ≤ B → 0 ≤ L_out → 0 ≤ D → covers B L_out D g →
  written (tiles val B L_out D g) ≡ₚ seqZ 0 (2 * (B * L_out * D)).
Proof.
  intros HB HL HD Hc.
  assert (0 ≤ B * L_out * D) by (repeat apply Z.mul_nonneg_nonneg; lia).
  rewrite seqZ_pairs by done.
  rewrite <- (tiles_indices val B L_out D g) by done.
  unfold written. rewrite list_fmap_bind. done.
Qed.

Lemma tiles_buf_out (val : Z → Z → Z → option (vec2 S)) B L_out D g :
  Forall (λ s, st_buf s = buf_out) (tiles val B L_out D g).
Proof.
  apply list.Forall_forall.
  by intros s (b & l & d & _ & _ & _ & _ & _ & _ & ->)%elem_of_tiles.
Qed.

End Partition.

(** ** Running the stores *)

Section Memory.
Context {S : Type} `{Repr S}.

(** A store into the output that is defined and in bounds for an output of
    [n] scalars. *)
Definition store_ok (n : nat) (s : Store S) : Prop :=
  st_buf s = buf_out ∧ is_Some (st_val s)
  ∧ 0 ≤ st_idx s ∧ 2 * st_idx s + 1 < Z.of_nat n.

Lemma exec_frame (sts : list (Store S)) (m m' : Device S) :
  Forall (λ s, st_buf s = buf_out) sts →
  exec sts m = Some m' →
  dev_u m' = dev_u m ∧ dev_weights m' = dev_weights m
  ∧ dev_bias m' = dev_bias m.
Proof.
  intros Hsts. revert m. induction Hsts as [|s sts Hs _ IH]; intros m.
  - by intros [= ->].
  - cbn. unfold store2. rewrite Hs.
    destruct (st_val s) as [v|]; [cbn|done].
    destruct (store_pair _ _ _ _) as [p|]; [cbn|done].
    intros Hex. by apply IH in Hex.
Qed.

Lemma exec_ok (sts : list (Store S)) (m : Device S) :
  Forall (store_ok (length (dev_out m))) sts →
  ∃ m', exec sts m = Some m'
    ∧ length (dev_out m') = length (dev_out m)
    ∧ (∀ j, (∀ s, s ∈ sts →
               j ≠ Z.to_nat (2 * st_idx s) ∧ j ≠ Z.to_nat (2 * st_idx s + 1)) →
            dev_out m' !! j = dev_out m !! j)
    ∧ (NoDup (st_idx <$> sts) →
       ∀ s v, s ∈ sts → st_val s = Some v →
         dev_out m' !! Z.to_nat (2 * st_idx s) = Some (Some v.1)
         ∧ dev_out m' !! Z.to_nat (2 * st_idx s + 1) = Some (Some v.2)).
Proof.
  revert m. induction sts as [|s sts IH]; intros m Hok.
  - exists m. split_and!; [done..|]. by intros _ s v ?%not_elem_of_nil.
  - apply list.Forall_cons in Hok as [(Hb & [v Hv] & Hi0 & Hi1) Hok].
    cbn [exec]. unfold store2, store_pair. rewrite Hb, Hv. cbn.
    rewrite decide_True by done. cbn.
    set (o1 := <[Z.to_nat (2 * st_idx s + 1) := Some v.2]>
                 (<[Z.to_nat (2 * st_idx s) := Some v.1]> (dev_out m))).
    set (m1 := mkDevice _ _ _ o1).
    assert (Hlen1 : length (dev_out m1) = length (dev_out m)).
    { cbn. unfold o1. by rewrite !length_insert. }
    destruct (IH m1) as (m' & Hex & Hlen & Hkeep & Hnew).
    { by rewrite Hlen1. }
    exists m'. split; [done|]. split; [congruence|]. split.
    + intros j Hj. rewrite Hkeep.
      * destruct (Hj s) as [Hj0 Hj1]; [left|].
        cbn. unfold o1.
        rewrite !list_lookup_insert_ne by done. done.
      * intros s' Hs'. apply Hj. by right.
    + intros Hnd s' v' Hs' Hv'. cbn in Hnd. apply list.NoDup_cons in Hnd as [Hni Hnd].
      apply elem_of_cons in Hs' as [->|Hs'].
      * assert (v' = v) as -> by congruence.
        rewrite !Hkeep.
        -- cbn. unfold o1. split.
           ++ rewrite list_lookup_insert_ne by lia.
              apply list_lookup_insert_eq. lia.
           ++ apply list_lookup_insert_eq. rewrite length_insert. lia.
        -- intros s' Hs'.
           assert (st_idx s' ≠ st_idx s).
           { intros E. apply Hni. rewrite <- E.
             by apply list_elem_of_fmap_2. }
           apply list.Forall_forall with (x := s') in Hok; [|done].
           destruct Hok as (_ & _ & ? & _). lia.
        -- intros s' Hs'.
           assert (st_idx s' ≠ st_idx s).
           { intros E. apply Hni. rewrite <- E.
             by apply list_elem_of_fmap_2. }
           apply list.Forall_forall with (x := s') in Hok; [|done].
           destruct Hok as (_ & _ & ? & _). lia.
      * by apply Hnew.
Qed.

End Memory.

(** ** Row-major tables *)

Section Tables.
Context {A B : Type}.

Lemma length_bind_const (f : A → list B) (l : list A) (n : nat) :
  (∀ x, x ∈ l → length (f x) = n) → length (l ≫= f) = (length l * n)%nat.
Proof.
  induction l as [|a l IH]; intros Hf; [done|].
  rewrite bind_cons, length_app, Hf, IH; [done| |left].
  intros x Hx. apply Hf. by right.
Qed.

Lemma lookup_bind_const (f : A → list B) (l : list A) (n i j : nat) :
  (∀ x, x ∈ l → length (f x) = n) → (j < n)%nat →
  (l ≫= f) !! (i * n + j)%nat = l !! i ≫= λ x, f x !! j.
Proof.
  revert i. induction l as [|a l IH]; intros i Hf Hj; [done|].
  assert (Ha : length (f a) = n) by (apply Hf; left).
  rewrite bind_cons. destruct i as [|i]; cbn [lookup list_lookup].
  - rewrite lookup_app_l by lia. done.
  - rewrite lookup_app_r by (cbn; lia).
    replace (Datatypes.S i * n + j - length (f a))%nat with (i * n + j)%nat
      by (cbn; lia).
    apply IH; [|done]. intros x Hx. apply Hf. by right.
Qed.

End Tables.

Section TablesZ.
Context {B : Type}.

Lemma length_seqZ_bind (f : Z → list B) (N n : Z) :
  (∀ x, 0 ≤ x < N → length (f x) = Z.to_nat n) → 0 ≤ N → 0 ≤ n →
  length (seqZ 0 N ≫= f) = Z.to_nat (N * n).
Proof.
  intros Hf HN Hn.
  rewrite (length_bind_const _ _ (Z.to_nat n)), length_seqZ; [lia|].
  intros x Hx%elem_of_seqZ. apply Hf. lia.
Qed.

Lemma lookup_seqZ_bind (f : Z → list B) (N n i j : Z) :
  (∀ x, 0 ≤ x < N → length (f x) = Z.to_nat n) →
  0 ≤ i < N → 0 ≤ j < n →
  (seqZ 0 N ≫= f) !! Z.to_nat (i * n + j) = f i !! Z.to_nat j.
Proof.
  intros Hf Hi Hj.
  replace (Z.to_nat (i * n + j))
    with (Z.to_nat i * Z.to_nat n + Z.to_nat j)%nat by nia.
  rewrite (lookup_bind_const _ _ (Z.to_nat n)); [| |lia].
  - rewrite lookup_seqZ_lt by lia. cbn. do 2 f_equal. lia.
  - intros x Hx%elem_of_seqZ. apply Hf. lia.
Qed.

(** The three nested loops that list a table of shape [[N1, N2, N3]]. *)
Lemma length_table3 (f : Z → Z → Z → B) (N1 N2 N3 : Z) :
  0 ≤ N1 → 0 ≤ N2 → 0 ≤ N3 →
  length (b ← seqZ 0 N1; l ← seqZ 0 N2; d ← seqZ 0 N3; [f b l d])
  = Z.to_nat (N1 * N2 * N3).
Proof.
  intros H1 H2 H3.
  rewrite (length_seqZ_bind _ _ (N2 * N3)); [f_equal; lia| |lia|nia].
  intros b _. rewrite (length_seqZ_bind _ _ N3); [done| |lia..].
  intros l _. rewrite (length_seqZ_bind _ _ 1); [f_equal; lia| |lia..].
  done.
Qed.

Lemma lookup_table3 (f : Z → Z → Z → B) (N1 N2 N3 b l d : Z) :
  0 ≤ b < N1 → 0 ≤ l < N2 → 0 ≤ d < N3 →
  (b ← seqZ 0 N1; l ← seqZ 0 N2; d ← seqZ 0 N3; [f b l d])
    !! Z.to_nat (b * N2 * N3 + l * N3 + d)
  = Some (f b l d).
Proof.
  intros Hb Hl Hd.
  assert (Hrow : ∀ b' l', length (seqZ 0 N3 ≫= λ d', [f b' l' d'])
                          = Z.to_nat N3).
  { intros b' l'.
    rewrite (length_seqZ_bind _ _ 1); [f_equal; lia| |lia..]. done. }
  assert (Hslab : ∀ b', length (seqZ 0 N2 ≫= λ l', seqZ 0 N3 ≫= λ d',
                                  [f b' l' d']) = Z.to_nat (N2 * N3)).
  { intros b'. rewrite (length_seqZ_bind _ _ N3); [done| |lia..].
    intros l' _. apply Hrow. }
  replace (b * N2 * N3 + l * N3 + d) with (b * (N2 * N3) + (l * N3 + d))
    by lia.
  rewrite (lookup_seqZ_bind _ N1 (N2 * N3)); [|by intros; apply Hslab|lia|nia].
  rewrite (lookup_seqZ_bind _ N2 N3); [|by intros; apply Hrow|lia..].
  replace d with (d * 1 + 0) at 1 by lia.
  rewrite (lookup_seqZ_bind _ N3 1); [done|done|lia..].
Qed.

End TablesZ.

(** ** The kernels compute the reference convolution *)

Section Correctness.
Context {S : Type} `{Repr S}.

Lemma load2_at (p : list S) i :
  0 ≤ i → 2 * i + 1 < Z.of_nat (length p) →
  load2 p i = Some (default f0 (p !! Z.to_nat (2 * i)),
                    default f0 (p !! Z.to_nat (2 * i + 1))).
Proof.
  intros Hi Hlen. destruct (load2_is_Some p i Hi Hlen) as [[x y] E].
  rewrite E. apply load2_Some in E as (_ & -> & ->). done.
Qed.

Lemma zero_pad_lookup p B L D (x : list S) b j c :
  0 ≤ p → 0 ≤ L → 0 ≤ D → length x = Z.to_nat (B * L * D) →
  0 ≤ b < B → 0 ≤ j < L + 2 * p → 0 ≤ c < D →
  at3 (zero_pad p B L D x) (L + 2 * p) D b j c
  = if (j <? p) || (j >? L + p - 1) then f0 else at3 x L D b (j - p) c.
Proof.
  intros Hp HL HD Hx Hb Hj Hc. unfold at3, zero_pad.
  assert (HpD : 0 ≤ p * D) by nia. assert (HLD : 0 ≤ L * D) by nia.
  assert (Hblk : ∀ b', 0 ≤ b' < B →
            length (replicate (Z.to_nat (p * D)) f0
                    ++ take (Z.to_nat (L * D)) (drop (Z.to_nat (b' * L * D)) x)
                    ++ replicate (Z.to_nat (p * D)) f0)
            = Z.to_nat ((L + 2 * p) * D)).
  { intros b' Hb'.
    assert (0 ≤ b' * L * D) by (apply Z.mul_nonneg_nonneg; nia).
    assert (b' * L * D + L * D ≤ B * L * D).
    { replace (b' * L * D + L * D) with ((b' + 1) * (L * D)) by lia.
      replace (B * L * D) with (B * (L * D)) by lia.
      apply Z.mul_le_mono_nonneg_r; lia. }
    rewrite !length_app, !length_replicate, length_take, length_drop. lia. }
  replace (b * (L + 2 * p) * D + j * D + c)
    with (b * ((L + 2 * p) * D) + (j * D + c)) by lia.
  rewrite (lookup_seqZ_bind _ B ((L + 2 * p) * D)); [|done|lia|nia].
  assert (0 ≤ j * D) by nia.
  destruct (Z.ltb_spec j p) as [Hlt|Hge]; cbn [orb].
  - assert (j * D + c < p * D) by nia.
    rewrite lookup_app_l by (rewrite length_replicate; lia).
    rewrite lookup_replicate_2 by lia. done.
  - assert (p * D ≤ j * D) by nia.
    rewrite lookup_app_r by (rewrite length_replicate; lia).
    rewrite length_replicate.
    assert (0 ≤ b * L * D) by (apply Z.mul_nonneg_nonneg; nia).
    assert (b * L * D + L * D ≤ B * L * D).
    { replace (b * L * D + L * D) with ((b + 1) * (L * D)) by lia.
      replace (B * L * D) with (B * (L * D)) by lia.
      apply Z.mul_le_mono_nonneg_r; lia. }
    rewrite Z.gtb_ltb. destruct (Z.ltb_spec (L + p - 1) j) as [Hhi|Hlo].
    + assert (L * D + p * D ≤ j * D) by nia.
      rewrite lookup_app_r
        by (rewrite length_take, length_drop; lia).
      rewrite length_take, length_drop.
      assert (j * D + c < (L + 2 * p) * D) by nia.
      rewrite lookup_replicate_2 by lia. done.
    + assert (j * D + c < L * D + p * D) by nia.
      rewrite lookup_app_l by (rewrite length_take, length_drop; lia).
      rewrite lookup_take_lt by lia. rewrite lookup_drop.
      do 2 f_equal. lia.
Qed.

(** The pair a thread accumulates is the pair of reference elements of its
    two channels. *)
Lemma acc_value_ref (u w bias : list S) p B L D2 K b l d :
  0 ≤ p → 0 ≤ L → 0 ≤ D2 → 0 ≤ K →
  L + 2 * p < 2 ^ 32 → K ≤ L + 2 * p →
  B * L * D2 ≤ 2 ^ 32 → K * D2 ≤ 2 ^ 32 →
  length u = Z.to_nat (B * L * (2 * D2)) →
  length w = Z.to_nat (K * (2 * D2)) →
  length bias = Z.to_nat (2 * D2) →
  0 ≤ b < B → 0 ≤ l < L + 2 * p - K + 1 → 0 ≤ d < D2 →
  let xp := zero_pad p B L (2 * D2) u in
  acc_value u w bias p (L + 2 * p) L D2 K b l d
  = Some (out_elem (L + 2 * p) (2 * D2) K xp w bias b l (2 * d),
          out_elem (L + 2 * p) (2 * D2) K xp w bias b l (2 * d + 1)).
Proof.
  intros Hp HL HD HK HLe HKL Hiu Hiw Hu Hw Hbias Hb Hl Hd xp.
  unfold acc_value, out_elem.
  match goal with
  | |- foldl ?f ?i _ = Some (foldl ?g0 ?i0 _, foldl ?g1 ?i1 _) =>
      assert (Hgen : ∀ n : nat, Z.of_nat n ≤ K →
                foldl f i (seqZ 0 (Z.of_nat n))
                = Some (foldl g0 i0 (seqZ 0 (Z.of_nat n)),
                        foldl g1 i1 (seqZ 0 (Z.of_nat n))));
        [|specialize (Hgen (Z.to_nat K)); rewrite Z2Nat.id in Hgen by done;
          apply Hgen; lia]
  end.
  intros n Hn. induction n as [|n IH].
  - cbn. rewrite load2_at by lia. unfold at1. done.
  - rewrite !seqZ_S, !foldl_app, IH by lia. cbn [foldl mbind option_bind].
    rewrite !Z.add_0_l. set (k := Z.of_nat n).
    assert (Hk : 0 ≤ k < K) by lia.
    rewrite (uint_small k) by lia.
    assert (Hget : get_u u (L + 2 * p) l p b k d L D2 K
              = Some (at3 xp (L + 2 * p) (2 * D2) b (l + k) (2 * d),
                      at3 xp (L + 2 * p) (2 * D2) b (l + k) (2 * d + 1))).
    { rewrite get_u_unfold.
      rewrite (uint_small (l + k)), (uint_small (L + 2 * p - (p + 1))) by lia.
      subst xp. rewrite !zero_pad_lookup by (done || lia).
      replace (L + 2 * p - (p + 1)) with (L + p - 1) by lia.
      destruct (_ || _) eqn:G; [done|].
      apply orb_false_iff in G as [G1%Z.ltb_ge G2].
      rewrite Z.gtb_ltb in G2. apply Z.ltb_ge in G2.
      assert (0 ≤ b * L * D2 + (l + k - p) * D2 + d < B * L * D2).
      { pose proof (flat_range B L D2 b (l + k - p) d) as Hf.
        unfold flat in Hf. lia. }
      rewrite uint_small by lia.
      rewrite load2_at by lia. unfold at3. do 4 f_equal; lia. }
    assert (Hwt : load2 w (k ⊗ D2 ⊕ d)
              = Some (at2 w (2 * D2) k (2 * d), at2 w (2 * D2) k (2 * d + 1))).
    { uint_norm.
      assert (0 ≤ k * D2 + d < K * D2) by nia.
      rewrite uint_small by lia.
      rewrite load2_at by lia. unfold at2. do 4 f_equal; lia. }
    rewrite Hget, Hwt. cbn. done.
Qed.

Lemma select_kernel_supported (k : Z) (dt : ScalarType) :
  supported dt = true →
  ∃ kern, select_kernel k dt = Some kern ∧ (kern = Width3 → k = 3).
Proof.
  intros Hdt. unfold select_kernel.
  destruct (Z.eqb_spec k 3); destruct dt; try done; eexists; split;
    try reflexivity; done.
Qed.

(** The stores of a call on a supported element type are those of the
    tiles of a grid that reaches every output coordinate. *)
Lemma conv1d_stores_tiles (dt : ScalarType) (u w bias : list S) p B L D K :
  supported dt = true → 0 ≤ B < 2 ^ 32 → 0 ≤ D < 2 ^ 32 →
  let L_eff := L ⊕ 2 ⊗ p in
  let L_out := L ⊕ 2 ⊗ p ⊖ K ⊕ 1 in
  B * L_out * (D `div` 2) ≤ 2 ^ 32 →
  B ≤ 65535 → L_out ≤ 262140 →
  conv1d_stores dt u w bias p B L D K
  = tiles (acc_value u w bias p L_eff L (D `div` 2) K) B L_out (D `div` 2)
      (gridDims_of B L_eff D K)
  ∧ covers B L_out (D `div` 2) (gridDims_of B L_eff D K).
Proof.
  intros Hdt HB HD L_eff L_out Hout HBg HLg.
  destruct (select_kernel_supported K dt Hdt) as (kern & Hsel & Hk).
  assert (HLo : 0 ≤ L_out < 2 ^ 32) by apply uint_range.
  pose proof (Z.div_mod D 2 ltac:(lia)) as E2.
  pose proof (Z.mod_pos_bound D 2 ltac:(lia)) as B2.
  assert (E2048 : BX ⊗ TILE_SIZE_X ⊗ 2 = 2048) by reflexivity.
  assert (E4 : BY ⊗ TILE_SIZE_Y = 4) by reflexivity.
  destruct (ceil_div_spec D 2048 HD ltac:(lia)) as [_ Hgx].
  destruct (ceil_div_spec L_out 4 HLo ltac:(lia)) as [_ Hgy].
  destruct (ceil_div_spec B 1 HB ltac:(lia)) as [_ Hgz].
  assert (Hfits : fits B L_out (D `div` 2) (gridDims_of B L_eff D K)).
  { unfold gridDims_of. rewrite E2048, E4.
    change (L_eff ⊖ K ⊕ 1) with L_out. unfold BZ.
    split; cbn [dim_x dim_y dim_z]; lia. }
  split.
  - unfold conv1d_stores. rewrite Hsel. cbv zeta.
    rewrite (uint_small (D `div` 2)) by lia.
    apply launch_tiles; [done| | |done..].
    + unfold gridDims_of. rewrite E4.
      change (L_eff ⊖ K ⊕ 1) with L_out. cbn [dim_y]. lia.
    + unfold gridDims_of, BZ. cbn [dim_z]. lia.
  - unfold covers, gridDims_of. rewrite E2048, E4.
    change (L_eff ⊖ K ⊕ 1) with L_out. unfold BZ.
    cbn [dim_x dim_y dim_z]. lia.
Qed.

(** More than 65535 batches, or more than [4 * 65535] output positions,
    give a grid of more than 65535 blocks along z or y. *)
Lemma gridDims_refused (B L_eff D K : Z) :
  0 ≤ B < 2 ^ 32 →
  65535 < B ∨ 262140 < L_eff ⊖ K ⊕ 1 →
  launch_accepted (gridDims_of B L_eff D K) (Dim3 BX BY BZ) = false.
Proof.
  intros HB Hbig. apply not_true_is_false.
  intros (_ & Hy & Hz)%launch_accepted_iff.
  set (L_out := L_eff ⊖ K ⊕ 1) in *.
  assert (HLo : 0 ≤ L_out < 2 ^ 32) by apply uint_range.
  assert (E4 : BY ⊗ TILE_SIZE_Y = 4) by reflexivity.
  destruct (ceil_div_spec L_out 4 HLo ltac:(lia)) as [_ Hgy].
  destruct (ceil_div_spec B 1 HB ltac:(lia)) as [_ Hgz].
  unfold gridDims_of, BZ in Hy, Hz. rewrite E4 in Hy.
  change (L_eff ⊖ K ⊕ 1) with L_out in Hy.
  cbn [dim_y dim_z] in Hy, Hz. lia.
Qed.

(** A call with such sizes asks for a grid that the runtime refuses: no
    store. *)
Lemma conv1d_stores_refused (dt : ScalarType) (u w bias : list S) p B L D K :
  0 ≤ B < 2 ^ 32 →
  65535 < B ∨ 262140 < L ⊕ 2 ⊗ p ⊖ K ⊕ 1 →
  conv1d_stores dt u w bias p B L D K = [].
Proof.
  intros HB Hbig. unfold conv1d_stores.
  destruct (select_kernel K dt); [|done]. cbv zeta. unfold launch.
  by rewrite gridDims_refused.
Qed.

(** Shapes and sizes for which the reference convolution is defined and
    every index of the kernels fits a [uint]. *)
Record conv_inputs (u weight bias : Tensor S) (p B L D K : Z) : Prop := {
  in_sizes : sizes u = [B; L; D];
  in_width : size weight 0 = Some K;
  in_u : length (data u) = Z.to_nat (B * L * D);
  in_weight : length (data weight) = Z.to_nat (K * D);
  in_bias : length (data bias) = Z.to_nat D;
  in_even : D `mod` 2 = 0;
  in_B : 0 ≤ B < 2 ^ 32;
  in_L : 0 ≤ L < 2 ^ 32;
  in_D : 0 ≤ D < 2 ^ 32;
  in_K : 0 ≤ K ≤ L + 2 * p;
  in_p : 0 ≤ p;
  in_L_eff : L + 2 * p < 2 ^ 32;
  in_L_out : L + 2 * p - K + 1 < 2 ^ 32;
  in_idx_u : B * L * (D `div` 2) ≤ 2 ^ 32;
  in_idx_weight : K * (D `div` 2) ≤ 2 ^ 32;
  in_idx_out : B * (L + 2 * p - K + 1) * (D `div` 2) ≤ 2 ^ 32
}.

Lemma conv1d_cuda_blh_ref (u weight bias : Tensor S) p B L D K :
  supported (dtype u) = true →
  conv_inputs u weight bias p B L D K →
  B ≤ 65535 → L + 2 * p - K + 1 ≤ 262140 →
  conv1d_cuda_blh u weight bias p
  = Returned []
      (mkOut (dtype u) [B; L + 2 * p - K + 1; D]
         (Some (Some <$> convolve_ref p B L D K
                           (data u) (data weight) (data bias)))).
Proof.
  intros Hdt [Hsz Hwd Hu Hw Hbias Hev HB HL HD HK Hp HLe HLo Hiu Hiw Hio]
    HBg HLg.
  set (D2 := D `div` 2) in *. set (Lo := L + 2 * p - K + 1) in *.
  assert (ED : D = 2 * D2).
  { pose proof (Z.div_mod D 2 ltac:(lia)). subst D2. lia. }
  assert (HD2 : 0 ≤ D2) by lia.
  rewrite (conv1d_cuda_blh_returned _ _ _ _ _ _ _ _ Hsz Hwd). cbv zeta.
  rewrite (uint_small B), (uint_small L), (uint_small D), (uint_small K)
    by lia.
  assert (ELe : L ⊕ 2 ⊗ p = L + 2 * p) by (uint_norm; apply uint_small; lia).
  assert (ELo : L ⊕ 2 ⊗ p ⊖ K ⊕ 1 = Lo).
  { uint_norm. apply uint_small. subst Lo. lia. }
  destruct (select_kernel_supported K _ Hdt) as (kern & Hsel & _).
  rewrite Hsel.
  destruct (conv1d_stores_tiles (dtype u) (data u) (data weight) (data bias)
              p B L D K Hdt HB HD) as [-> Hcov];
    [rewrite ELo; done|done|rewrite ELo; done|].
  rewrite ELe, ELo in *. fold D2 in Hcov |- *.
  set (val := acc_value _ _ _ _ _ _ _ _).
  set (g := gridDims_of _ _ _ _) in *.
  set (xp := zero_pad p B L D (data u)).
  assert (HLo0 : 0 ≤ Lo) by (subst Lo; lia).
  assert (HN : 0 ≤ B * Lo * D2) by (repeat apply Z.mul_nonneg_nonneg; lia).
  assert (Hval : ∀ b l d, 0 ≤ b < B → 0 ≤ l < Lo → 0 ≤ d < D2 →
            val b l d
            = Some (out_elem (L + 2 * p) D K xp (data weight) (data bias)
                      b l (2 * d),
                    out_elem (L + 2 * p) D K xp (data weight) (data bias)
                      b l (2 * d + 1))).
  { intros b l d Hb Hl Hd. subst val xp. rewrite ED.
    apply acc_value_ref; try done; try lia; rewrite <- ED; done. }
  set (n := Z.to_nat (B * Lo * D)).
  set (dev := mkDevice _ _ _ _).
  assert (Hlen0 : length (dev_out dev) = n) by apply length_replicate.
  destruct (exec_ok (tiles val B Lo D2 g) dev) as (m' & -> & Hlen & _ & Hnew).
  { rewrite Hlen0. apply list.Forall_forall.
    intros s (b & l & d & Hb & _ & Hl & _ & Hd & _ & ->)%elem_of_tiles.
    pose proof (flat_range B Lo D2 b l d Hb Hl Hd) as Hf.
    split_and!; cbn; [done|rewrite Hval by done; eauto|lia|].
    subst n. rewrite ED. lia. }
  specialize (Hnew (NoDup_tiles _ _ _ _ _)).
  cbn [fmap option_fmap option_map]. do 3 f_equal.
  assert (Hreflen : length (convolve_ref p B L D K (data u) (data weight)
                              (data bias)) = n).
  { unfold convolve_ref, conv_unpadded. fold Lo.
    rewrite length_table3 by lia. done. }
  apply (list_eq_same_length _ _ n);
    [by rewrite length_fmap|congruence|].
  intros j x y Hj Hx Hy.
  apply list_lookup_fmap_Some in Hy as (r & -> & Hr).
  assert (Hj' : 0 ≤ Z.of_nat j < 2 * (B * Lo * D2)) by (subst n; lia).
  pose proof (Z.div_mod (Z.of_nat j) 2 ltac:(lia)) as Ej.
  pose proof (Z.mod_pos_bound (Z.of_nat j) 2 ltac:(lia)) as Bj.
  set (i := Z.of_nat j `div` 2) in *. set (c := Z.of_nat j `mod` 2) in *.
  destruct (flat_decode B Lo D2 i) as (b & l & d & Hb & Hl & Hd & Ei);
    [lia..|].
  assert (Hs : mkStore buf_out (flat Lo D2 b l d) (val b l d)
               ∈ tiles val B Lo D2 g).
  { destruct Hcov as (? & ? & ?).
    apply elem_of_tiles. exists b, l, d. split_and!; (lia || done). }
  destruct (Hnew _ _ Hs (Hval b l d Hb Hl Hd)) as [Hn0 Hn1].
  cbn [st_idx fst snd] in Hn0, Hn1. rewrite <- Ei in Hn0, Hn1.
  assert (Hrj : convolve_ref p B L D K (data u) (data weight) (data bias)
                  !! j
                = Some (out_elem (L + 2 * p) D K xp (data weight) (data bias)
                          b l (2 * d + c))).
  { unfold convolve_ref, conv_unpadded. fold Lo xp.
    replace j with (Z.to_nat (b * Lo * D + l * D + (2 * d + c))).
    - apply lookup_table3; lia.
    - unfold flat in Ei. rewrite ED. lia. }
  rewrite Hrj in Hr. injection Hr as <-.
  assert (c = 0 ∨ c = 1) as [Ec|Ec] by lia; rewrite Ec in *.
  - replace (Z.to_nat (2 * i)) with j in Hn0 by lia.
    rewrite Z.add_0_r. congruence.
  - replace (Z.to_nat (2 * i + 1)) with j in Hn1 by lia. congruence.
Qed.

(** The same call with a grid that the runtime refuses: the tensor comes
    back as [torch::empty] left it. *)
Lemma conv1d_cuda_blh_refused (u weight bias : Tensor S) p B L D K :
  supported (dtype u) = true →
  conv_inputs u weight bias p B L D K →
  65535 < B ∨ 262140 < L + 2 * p - K + 1 →
  conv1d_cuda_blh u weight bias p
  = Returned []
      (mkOut (dtype u) [B; L + 2 * p - K + 1; D]
         (Some (replicate (Z.to_nat (B * (L + 2 * p - K + 1) * D)) None))).
Proof.
  intros Hdt [Hsz Hwd _ _ _ _ HB HL HD HK Hp HLe HLo _ _ _] Hbig.
  rewrite (conv1d_cuda_blh_returned _ _ _ _ _ _ _ _ Hsz Hwd). cbv zeta.
  rewrite (uint_small B), (uint_small L), (uint_small D), (uint_small K)
    by lia.
  assert (ELo : L ⊕ 2 ⊗ p ⊖ K ⊕ 1 = L + 2 * p - K + 1).
  { uint_norm. apply uint_small. lia. }
  destruct (select_kernel_supported K _ Hdt) as (kern & Hsel & _).
  rewrite Hsel, conv1d_stores_refused by (done || rewrite ELo; done).
  rewrite ELo. reflexivity.
Qed.

End Correctness.

(** ** The whole call *)

Section Convolve.
Context {S : Type} `{Repr S}.

(** C1.  For an input of shape [[B, L, D]] with [D] even, a weight of
    [K <= L + 2 p] rows and a bias, all of sizes that fit [uint] indexing,
    and with at most 65535 batches and [4 * 65535] output positions, so
    that the launch is within the limits on the number of blocks, the call
    returns the tensor of shape [[B, L + 2 p - K + 1, D]] that the
    convolution without padding computes from the input padded with [p]
    zeros on both sides of the sequence axis. *)
Theorem convolve_zero_pad (u weight bias : Tensor S) p B L D K :
  supported (dtype u) = true →
  conv_inputs u weight bias p B L D K →
  B ≤ 65535 → L + 2 * p - K + 1 ≤ 262140 →
  ∃ out,
    conv1d_cuda_blh u weight bias p = Returned [] out
    ∧ out_sizes out = [B; L + 2 * p - K + 1; D]
    ∧ out_data out
      = Some (Some <$> conv_unpadded B (L + 2 * p) D K
                         (zero_pad p B L D (data u))
                         (data weight) (data bias)).
Proof.
  intros Hdt Hin HBg HLg. eexists.
  split; [by apply conv1d_cuda_blh_ref|].
  split; reflexivity.
Qed.

(** C7.  On a supported element type, with [D] even, an output that fits
    [uint] indexing, and at most 65535 batches and [4 * 65535] output
    positions, so that the launch is within the limits on the number of
    blocks, the stores of a call all go through the output pointer; the
    scalar offsets they write are, up to order, exactly the offsets
    [0 .. B * L_out * D - 1] of the output, each once; and running them
    leaves input, weight and bias as they were. *)
Theorem stores_partition_output (dt : ScalarType) (u w bias : list S)
    p B L D K :
  supported dt = true → D `mod` 2 = 0 →
  0 ≤ B < 2 ^ 32 → 0 ≤ D < 2 ^ 32 →
  let L_out := L ⊕ 2 ⊗ p ⊖ K ⊕ 1 in
  B * L_out * (D `div` 2) ≤ 2 ^ 32 →
  B ≤ 65535 → L_out ≤ 262140 →
  let sts := conv1d_stores dt u w bias p B L D K in
  Forall (λ s, st_buf s = buf_out) sts
  ∧ written sts ≡ₚ seqZ 0 (B * L_out * D)
  ∧ ∀ m m', exec sts m = Some m' →
      dev_u m' = dev_u m ∧ dev_weights m' = dev_weights m
      ∧ dev_bias m' = dev_bias m.
Proof.
  intros Hdt Hev HB HD L_out Hout HBg HLg sts.
  destruct (conv1d_stores_tiles dt u w bias p B L D K Hdt HB HD Hout HBg HLg)
    as [Hsts Hcov].
  fold L_out in Hcov, Hsts. subst sts. rewrite Hsts.
  assert (0 ≤ L_out) by apply uint_range.
  pose proof (Z.div_mod D 2 ltac:(lia)) as ED. rewrite Hev, Z.add_0_r in ED.
  set (D2 := D `div` 2) in *. clearbody D2 L_out.
  split; [apply tiles_buf_out|]. split.
  - rewrite tiles_written by (done || lia).
    replace (B * L_out * D) with (2 * (B * L_out * D2)); [done|].
    rewrite ED. lia.
  - intros m m'. apply exec_frame, tiles_buf_out.
Qed.

Lemma foldl_ext_in {A B} (f g : A → B → A) (l : list B) (a : A) :
  (∀ a x, x ∈ l → f a x = g a x) → foldl f a l = foldl g a l.
Proof.
  revert a. induction l as [|x l IH]; intros a Hfg; [done|].
  cbn. rewrite Hfg by left. apply IH. intros a' y Hy. apply Hfg. by right.
Qed.

Lemma batch_slice_lookup (x : list S) L D b l d :
  0 ≤ b → 0 ≤ l < L → 0 ≤ d < D →
  batch_slice (L * D) b x !! Z.to_nat (l * D + d)
  = x !! Z.to_nat (b * L * D + l * D + d).
Proof.
  intros Hb Hl Hd. unfold batch_slice.
  assert (0 ≤ l * D) by nia. assert (l * D + d < L * D) by nia.
  assert (0 ≤ b * (L * D)) by nia.
  rewrite lookup_take_lt by lia. rewrite lookup_drop.
  f_equal. lia.
Qed.

(** C9.  Two inputs of the same shape that agree on batch [b], convolved
    with the same weight, bias and padding, give outputs that agree on
    batch [b]. *)
Theorem batch_independence (u1 u2 weight bias : Tensor S) p B L D K b :
  supported (dtype u1) = true → supported (dtype u2) = true →
  conv_inputs u1 weight bias p B L D K →
  conv_inputs u2 weight bias p B L D K →
  0 ≤ b < B →
  batch_slice (L * D) b (data u1) = batch_slice (L * D) b (data u2) →
  ∃ out1 out2 d1 d2,
    conv1d_cuda_blh u1 weight bias p = Returned [] out1
    ∧ conv1d_cuda_blh u2 weight bias p = Returned [] out2
    ∧ out_data out1 = Some d1 ∧ out_data out2 = Some d2
    ∧ batch_slice ((L + 2 * p - K + 1) * D) b d1
      = batch_slice ((L + 2 * p - K + 1) * D) b d2.
Proof.
  intros Hdt1 Hdt2 Hin1 Hin2 Hb Hslice.
  destruct (decide (B ≤ 65535 ∧ L + 2 * p - K + 1 ≤ 262140))
    as [[HBg HLg]|Hbig].
  2: { do 4 eexists.
       split; [apply conv1d_cuda_blh_refused; (done || lia)|].
       split; [apply conv1d_cuda_blh_refused; (done || lia)|].
       split; [reflexivity|]. split; reflexivity. }
  do 4 eexists.
  split; [by apply conv1d_cuda_blh_ref|].
  split; [by apply conv1d_cuda_blh_ref|].
  split; [reflexivity|]. split; [reflexivity|].
  destruct Hin1 as [_ _ Hu1 _ _ _ HB HL HD HK Hp HLe HLo _ _ _].
  destruct Hin2 as [_ _ Hu2 _ _ _ _ _ _ _ _ _ _ _ _ _].
  set (Lo := L + 2 * p - K + 1) in *.
  assert (HLo0 : 0 ≤ Lo) by (subst Lo; lia).
  assert (HLD : 0 ≤ Lo * D) by nia.
  assert (Hfit : b * (Lo * D) + Lo * D ≤ B * Lo * D).
  { replace (b * (Lo * D) + Lo * D) with ((b + 1) * (Lo * D)) by lia.
    replace (B * Lo * D) with (B * (Lo * D)) by lia.
    apply Z.mul_le_mono_nonneg_r; lia. }
  assert (0 ≤ b * (Lo * D)) by nia.
  unfold batch_slice, convolve_ref, conv_unpadded. fold Lo.
  apply (list_eq_same_length _ _ (Z.to_nat (Lo * D)));
    [rewrite length_take, length_drop, length_fmap, length_table3 by lia; lia
    |rewrite length_take, length_drop, length_fmap, length_table3 by lia; lia
    |].
  intros j x y Hj. rewrite !lookup_take_lt, !lookup_drop by done.
  rewrite !list_lookup_fmap.
  assert (0 < D) by nia.
  pose proof (Z.div_mod (Z.of_nat j) D ltac:(lia)) as Ej.
  pose proof (Z.mod_pos_bound (Z.of_nat j) D ltac:(lia)) as Bj.
  set (l := Z.of_nat j `div` D) in *. set (c := Z.of_nat j `mod` D) in *.
  assert (0 ≤ l) by (apply Z.div_pos; lia).
  assert (l < Lo).
  { destruct (Z_lt_le_dec l Lo) as [?|Hge]; [done|exfalso].
    assert (Lo * D ≤ l * D) by (apply Z.mul_le_mono_nonneg_r; lia). lia. }
  replace (Z.to_nat (b * (Lo * D)) + j)%nat
    with (Z.to_nat (b * Lo * D + l * D + c)) by lia.
  rewrite !lookup_table3 by lia. cbn.
  intros [= <-] [= <-]. f_equal. unfold out_elem.
  apply foldl_ext_in. intros a k Hk%elem_of_seqZ.
  f_equal. rewrite !zero_pad_lookup by (done || lia).
  destruct (_ || _) eqn:G; [done|].
  apply orb_false_iff in G as [G1%Z.ltb_ge G2].
  rewrite Z.gtb_ltb in G2. apply Z.ltb_ge in G2.
  unfold at3.
  rewrite <- !(batch_slice_lookup _ L D b) by lia.
  by rewrite Hslice.
Qed.

End Convolve.

(** ** The worked example *)

Section WorkedExample.
Context {S : Type} `{Repr S}.

(** C5, as the code has it.  On the worked example (one batch, five
    positions, two channels, three all-ones taps, zero bias, padding one),
    in any supported representation that adds these small integers exactly,
    the call returns five rows: [3,3], [6,6], [9,9], [12,12] and [9,9]. *)
Theorem worked_example (inj : Z → S) (dt : ScalarType) :
  supported dt = true →
  f0 = inj 0 →
  (∀ a c, 0 ≤ a ≤ 5 → 0 ≤ c ≤ 12 →
     fmac (inj a) (inj 1) (inj c) = inj (a + c)) →
  conv1d_cuda_blh (example_u inj dt) (example_weight inj dt)
    (example_bias inj dt) 1
  = Returned []
      (mkOut dt [1; 5; 2]
         (Some (Some ∘ inj <$> [3; 3; 6; 6; 9; 9; 12; 12; 9; 9]))).
Proof.
  intros Hdt Hz Hmac.
  assert (Hin : conv_inputs (example_u inj dt) (example_weight inj dt)
                  (example_bias inj dt) 1 1 5 2 3).
  { split; first [reflexivity | lia | by vm_compute]. }
  rewrite (conv1d_cuda_blh_ref (example_u inj dt) _ _ _ _ _ _ _ Hdt Hin)
    by lia.
  cbn [dtype example_u]. do 3 f_equal.
  cbv -[f0 fmac]. rewrite Hz.
  repeat (rewrite Hmac by lia). reflexivity.
Qed.

End WorkedExample.

(** ** Instances at binary32 *)

Module Float32Examples.
Import Float32.

Definition u : Tensor spec_float := example_u of_Z kFloat32.
Definition weight : Tensor spec_float := example_weight of_Z kFloat32.
Definition bias : Tensor spec_float := example_bias of_Z kFloat32.

(** An input of one batch, one position and two channels: shorter than
    the three taps of [weight]. *)
Definition short_u : Tensor spec_float :=
  mkTensor kFloat32 [1; 1; 2] [of_Z 1; of_Z 1].

(** The worked example with batch 0 repeated and changed in batch 1. *)
Definition two_batches (x : Z) : Tensor spec_float :=
  mkTensor kFloat32 [2; 5; 2]
    (of_Z <$> [1; 1; 2; 2; 3; 3; 4; 4; 5; 5; x; x; x; x; x; x; x; x; x; x]).

Lemma small_sums_exact (a c : Z) :
  0 ≤ a ≤ 5 → 0 ≤ c ≤ 12 → fmac (of_Z a) (of_Z 1) (of_Z c) = of_Z (a + c).
Proof.
  intros Ha Hc.
  assert (Ea : a = 0 ∨ a = 1 ∨ a = 2 ∨ a = 3 ∨ a = 4 ∨ a = 5) by lia.
  assert (Ec : c = 0 ∨ c = 1 ∨ c = 2 ∨ c = 3 ∨ c = 4 ∨ c = 5 ∨ c = 6
               ∨ c = 7 ∨ c = 8 ∨ c = 9 ∨ c = 10 ∨ c = 11 ∨ c = 12) by lia.
  clear Ha Hc.
  repeat (destruct Ea as [->|Ea]); try subst a;
    repeat (destruct Ec as [->|Ec]); try subst c; vm_compute; reflexivity.
Qed.

Lemma inputs_ok : conv_inputs u weight bias 1 1 5 2 3.
Proof. split; first [reflexivity | lia | by vm_compute]. Qed.

Lemma two_batches_ok x : conv_inputs (two_batches x) weight bias 1 2 5 2 3.
Proof. split; first [reflexivity | lia | by vm_compute]. Qed.

End Float32Examples.

(** ** The theorems at concrete inputs *)

Section Instances.
Import Float32 Float32Examples.

(** C1 at the worked example. *)
Lemma convolve_zero_pad_witness :
  ∃ out,
    conv1d_cuda_blh u weight bias 1 = Returned [] out
    ∧ out_sizes out = [1; 5 + 2 * 1 - 3 + 1; 2]
    ∧ out_data out
      = Some (Some <$> conv_unpadded 1 (5 + 2 * 1) 2 3
                         (zero_pad 1 1 5 2 (data u))
                         (data weight) (data bias)).
Proof.
  apply (convolve_zero_pad u weight bias 1 1 5 2 3).
  - reflexivity.
  - split; first [reflexivity | lia | by vm_compute].
  - lia.
  - lia.
Defined.

(** C2 at the first tap of the first position of the worked example. *)
Lemma get_u_sample_witness :
  get_u (data u) 7 0 1 0 0 0 5 1 3 = sample (data u) 7 0 1 0 0 0 5 1 3.
Proof. apply get_u_sample; lia. Defined.

(** C5 at binary32. *)
Lemma worked_example_witness :
  conv1d_cuda_blh u weight bias 1
  = Returned []
      (mkOut kFloat32 [1; 5; 2]
         (Some (Some ∘ of_Z <$> [3; 3; 6; 6; 9; 9; 12; 12; 9; 9]))).
Proof.
  apply (worked_example of_Z kFloat32).
  - reflexivity.
  - reflexivity.
  - exact small_sums_exact.
Defined.

(** C5 as stated fails: the last row of the worked example is [9, 9],
    not [7, 7]. *)
Lemma worked_example_last_row :
  ∃ out d,
    conv1d_cuda_blh u weight bias 1 = Returned [] out
    ∧ out_data out = Some d
    ∧ take 2 (drop 8 d) = [Some (of_Z 9); Some (of_Z 9)]
    ∧ take 2 (drop 8 d) ≠ [Some (of_Z 7); Some (of_Z 7)].
Proof.
  do 2 eexists. split; [vm_compute; reflexivity|].
  split; [reflexivity|]. split; [reflexivity|].
  vm_compute. discriminate.
Qed.

(** C6 at the worked example. *)
Lemma out_length_mod_witness :
  ∃ stdout out,
    conv1d_cuda_blh u weight bias 1 = Returned stdout out
    ∧ out_sizes out = [1; (5 + 2 * 1 - 3 + 1) `mod` 2 ^ 32; 2]
    ∧ (3 ≤ 5 + 2 * 1 + 1 → 5 + 2 * 1 + 1 - 3 < 2 ^ 32 →
       out_sizes out = [1; 5 + 2 * 1 - 3 + 1; 2]).
Proof.
  apply (out_length_mod u weight bias 1 1 5 2 3); first [reflexivity | lia].
Defined.

(** C6 as stated fails: three taps on a sequence of one element without
    padding give a tensor of [2^32 - 1] positions, not of [-1]. *)
Lemma out_length_wraps :
  ∃ stdout out,
    conv1d_cuda_blh short_u weight bias 0 = Returned stdout out
    ∧ out_sizes out = [1; 4294967295; 2]
    ∧ 4294967295 ≠ 1 + 2 * 0 - 3 + 1.
Proof.
  rewrite (conv1d_cuda_blh_returned short_u weight bias 0 1 1 2 3)
    by reflexivity.
  cbv zeta. do 2 eexists. split; [reflexivity|]. split; [|lia].
  cbn [out_sizes]. rewrite l_out_wrap. reflexivity.
Qed.

(** C7 at the worked example. *)
Lemma stores_partition_output_witness :
  let sts := conv1d_stores kFloat32 (data u) (data weight) (data bias)
               1 1 5 2 3 in
  Forall (λ s, st_buf s = buf_out) sts
  ∧ written sts ≡ₚ seqZ 0 (1 * (5 ⊕ 2 ⊗ 1 ⊖ 3 ⊕ 1) * 2)
  ∧ ∀ m m', exec sts m = Some m' →
      dev_u m' = dev_u m ∧ dev_weights m' = dev_weights m
      ∧ dev_bias m' = dev_bias m.
Proof.
  apply (stores_partition_output kFloat32 (data u) (data weight) (data bias)
           1 1 5 2 3); first [reflexivity | lia | by vm_compute].
Defined.

(** C8 at the worked example read as a tensor of doubles. *)
Lemma unsupported_dtype_witness :
  select_kernel (uint 3) kFloat64 = None
  ∧ conv1d_stores kFloat64 (data u) (data weight) (data bias) 1
      (uint 1) (uint 5) (uint 2) (uint 3) = []
  ∧ ∃ out,
      conv1d_cuda_blh (example_u of_Z kFloat64) weight bias 1
      = Returned [unsupported_msg] out
      ∧ out_data out
        = Some (replicate
                  (Z.to_nat (uint 1 * (uint 5 ⊕ 2 ⊗ 1 ⊖ uint 3 ⊕ 1) * uint 2))
                  None).
Proof.
  apply (unsupported_dtype (example_u of_Z kFloat64) weight bias 1 1 5 2 3);
    reflexivity.
Defined.

(** C9 at two inputs of two batches that differ in batch 1 only. *)
Lemma batch_independence_witness :
  ∃ out1 out2 d1 d2,
    conv1d_cuda_blh (two_batches 7) weight bias 1 = Returned [] out1
    ∧ conv1d_cuda_blh (two_batches 8) weight bias 1 = Returned [] out2
    ∧ out_data out1 = Some d1 ∧ out_data out2 = Some d2
    ∧ batch_slice ((5 + 2 * 1 - 3 + 1) * 2) 0 d1
      = batch_slice ((5 + 2 * 1 - 3 + 1) * 2) 0 d2.
Proof.
  apply (batch_independence (two_batches 7) (two_batches 8) weight bias
           1 2 5 2 3 0).
  - reflexivity.
  - reflexivity.
  - apply two_batches_ok.
  - apply two_batches_ok.
  - lia.
  - reflexivity.
Defined.

(** C10 at the second tap of the first position of the worked example. *)
Lemma get_u_in_bounds_witness :
  let L_eff := 5 + 2 * 1 in
  ((0 ⊕ 1 <? 1) || (0 ⊕ 1 >? L_eff ⊖ (1 ⊕ 1)) = false →
     1 ≤ 0 + 1 ≤ L_eff - (1 + 1)
     ∧ 0 ≤ 0 + 1 - 1 ≤ 5 - 1
     ∧ 0 ≤ 0 * 5 * 1 + (0 + 1 - 1) * 1 + 0 < 1 * 5 * 1
     ∧ 0 ≤ 0 ⊗ 5 ⊗ 1 ⊕ (0 ⊕ 1 ⊖ 1) ⊗ 1 ⊕ 0 < 1 * 5 * 1)
  ∧ is_Some (get_u (data u) L_eff 0 1 0 1 0 5 1 3).
Proof.
  apply (get_u_in_bounds (data u) 1 5 1 3 1 0 0 0 1);
    first [reflexivity | lia].
Defined.

End Instances.

(** * Further properties of the code *)

(** ** The order of the threads *)

Section Schedule.
Context {S : Type} `{Repr S}.

(** Stores to distinct places of the output can be run in any order. *)
Lemma exec_Permutation (sts sts' : list (Store S)) (m : Device S) :
  sts ≡ₚ sts' →
  Forall (store_ok (length (dev_out m))) sts →
  NoDup (st_idx <$> sts) →
  exec sts' m = exec sts m.
Proof.
  intros Hperm Hok Hnd.
  assert (Hok' : Forall (store_ok (length (dev_out m))) sts')
    by (by rewrite <- Hperm).
  assert (Hnd' : NoDup (st_idx <$> sts')) by (by rewrite <- Hperm).
  assert (Hbuf : Forall (λ s, st_buf s = buf_out) sts).
  { eapply list.Forall_impl; [exact Hok|]. by intros s [? _]. }
  assert (Hbuf' : Forall (λ s, st_buf s = buf_out) sts')
    by (by rewrite <- Hperm).
  destruct (exec_ok sts m Hok) as (m1 & E1 & Hlen1 & Hkeep1 & Hnew1).
  destruct (exec_ok sts' m Hok') as (m2 & E2 & Hlen2 & Hkeep2 & Hnew2).
  specialize (Hnew1 Hnd). specialize (Hnew2 Hnd').
  rewrite E1, E2. f_equal.
  destruct (exec_frame _ _ _ Hbuf E1) as (Hu1 & Hw1 & Hb1).
  destruct (exec_frame _ _ _ Hbuf' E2) as (Hu2 & Hw2 & Hb2).
  assert (Hout : dev_out m2 = dev_out m1).
  { apply list_eq. intros j.
    destruct (decide (Exists (λ s, j = Z.to_nat (2 * st_idx s)
                                   ∨ j = Z.to_nat (2 * st_idx s + 1)) sts))
      as [Hex|Hno].
    - apply list.Exists_exists in Hex as (s & Hs & Hj).
      pose proof Hok as Hs_ok.
      apply list.Forall_forall with (x := s) in Hs_ok as (_ & [v Hv] & _);
        [|done].
      destruct (Hnew1 s v Hs Hv) as [A1 B1].
      destruct (Hnew2 s v) as [A2 B2]; [by rewrite <- Hperm|done|].
      destruct Hj as [->| ->]; congruence.
    - assert (Hfree : ∀ s, s ∈ sts →
                j ≠ Z.to_nat (2 * st_idx s) ∧ j ≠ Z.to_nat (2 * st_idx s + 1)).
      { intros s Hs. split; intros ->; apply Hno, list.Exists_exists;
          exists s; auto. }
      rewrite Hkeep1 by done. rewrite Hkeep2; [done|].
      intros s Hs. apply Hfree. by rewrite Hperm. }
  destruct m1, m2; cbn in *. congruence.
Qed.

(** Under the conditions of [conv_inputs] every store of the launch is
    defined and in bounds, and no two go to the same pair; a refused launch
    has no store. *)
Lemma conv1d_stores_ok (u weight bias : Tensor S) p B L D K :
  supported (dtype u) = true →
  conv_inputs u weight bias p B L D K →
  let sts := conv1d_stores (dtype u) (data u) (data weight) (data bias)
               p B L D K in
  Forall (store_ok (Z.to_nat (B * (L + 2 * p - K + 1) * D))) sts
  ∧ NoDup (st_idx <$> sts).
Proof.
  intros Hdt [Hsz Hwd Hu Hw Hbias Hev HB HL HD HK Hp HLe HLo Hiu Hiw Hio] sts.
  set (D2 := D `div` 2) in *. set (Lo := L + 2 * p - K + 1) in *.
  assert (ED : D = 2 * D2).
  { pose proof (Z.div_mod D 2 ltac:(lia)). subst D2. lia. }
  assert (ELe : L ⊕ 2 ⊗ p = L + 2 * p) by (uint_norm; apply uint_small; lia).
  assert (ELo : L ⊕ 2 ⊗ p ⊖ K ⊕ 1 = Lo).
  { uint_norm. apply uint_small. subst Lo. lia. }
  destruct (decide (B ≤ 65535 ∧ Lo ≤ 262140)) as [[HBg HLg]|Hbig]; cycle 1.
  { subst sts. rewrite conv1d_stores_refused by (done || rewrite ELo; lia).
    split; [apply list.Forall_nil_2|apply NoDup_nil_2]. }
  destruct (conv1d_stores_tiles (dtype u) (data u) (data weight) (data bias)
              p B L D K Hdt HB HD) as [Hsts _];
    [rewrite ELo; done|done|rewrite ELo; done|].
  subst sts. rewrite Hsts, ELo, ELe. fold D2.
  split; [|apply NoDup_tiles].
  apply list.Forall_forall.
  intros s (b & l & d & Hb & _ & Hl & _ & Hd & _ & ->)%elem_of_tiles.
  pose proof (flat_range B Lo D2 b l d Hb Hl Hd) as Hf.
  assert (HN : 0 ≤ B * Lo * D2) by lia.
  split_and!; cbn; [done| |lia|rewrite ED; lia].
  rewrite (acc_value_ref _ _ _ p B L D2 K b l d);
    [eauto|try done; try lia; rewrite <- ED; done..].
Qed.

(** Whatever order the threads of the launch run in, and however their
    stores interleave, the device ends in the same state. *)
Theorem schedule_independence (u weight bias : Tensor S) p B L D K sts' :
  supported (dtype u) = true →
  conv_inputs u weight bias p B L D K →
  let sts := conv1d_stores (dtype u) (data u) (data weight) (data bias)
               p B L D K in
  let dev := mkDevice (data u) (data weight) (data bias)
               (replicate (Z.to_nat (B * (L + 2 * p - K + 1) * D)) None) in
  sts' ≡ₚ sts →
  exec sts' dev = exec sts dev ∧ is_Some (exec sts dev).
Proof.
  intros Hdt Hin sts dev Hperm.
  destruct (conv1d_stores_ok u weight bias p B L D K Hdt Hin) as [Hok Hnd].
  fold sts in Hok, Hnd.
  assert (Hok' : Forall (store_ok (length (dev_out dev))) sts).
  { cbn. by rewrite length_replicate. }
  split.
  - by apply exec_Permutation.
  - destruct (exec_ok sts dev Hok') as (m' & -> & _). eauto.
Qed.

End Schedule.

(** ** The dispatcher *)

Section DispatcherFacts.
Context {S : Type} `{Repr S}.

(** The grid has [B] layers of [ceil(L_out / 4)] by [ceil(D / 2048)]
    blocks, no more. *)
Theorem grid_geometry (B L_eff D K : Z) :
  0 ≤ B < 2 ^ 32 → 0 ≤ D < 2 ^ 32 →
  let g := gridDims_of B L_eff D K in
  let L_out := L_eff ⊖ K ⊕ 1 in
  dim_z g = B
  ∧ 4 * (dim_y g - 1) < L_out ≤ 4 * dim_y g
  ∧ 2048 * (dim_x g - 1) < D ≤ 2048 * dim_x g.
Proof.
  intros HB HD g L_out.
  assert (HLo : 0 ≤ L_out < 2 ^ 32) by apply uint_range.
  assert (E2048 : BX ⊗ TILE_SIZE_X ⊗ 2 = 2048) by reflexivity.
  assert (E4 : BY ⊗ TILE_SIZE_Y = 4) by reflexivity.
  destruct (ceil_div_spec D 2048 HD ltac:(lia)) as [_ Hgx].
  destruct (ceil_div_spec L_out 4 HLo ltac:(lia)) as [_ Hgy].
  destruct (ceil_div_spec B 1 HB ltac:(lia)) as [_ Hgz].
  subst g. unfold gridDims_of. rewrite E2048, E4.
  change (L_eff ⊖ K ⊕ 1) with L_out. unfold BZ.
  cbn [dim_x dim_y dim_z]. lia.
Qed.

(** A call with no batch, no output position or fewer than two channels
    performs no store at all: the tensor it returns is entirely unwritten
    (and empty, unless it has one channel). *)
Theorem empty_launch (u weight bias : Tensor S) p B L D K :
  sizes u = [B; L; D] → size weight 0 = Some K →
  0 ≤ B < 2 ^ 32 → 0 ≤ D < 2 ^ 32 →
  let L_out := L ⊕ 2 ⊗ p ⊖ uint K ⊕ 1 in
  B = 0 ∨ L_out = 0 ∨ D < 2 →
  conv1d_stores (dtype u) (data u) (data weight) (data bias) p
    B (uint L) D (uint K) = []
  ∧ ∃ stdout out,
      conv1d_cuda_blh u weight bias p = Returned stdout out
      ∧ out_data out = Some (replicate (Z.to_nat (B * L_out * D)) None).
Proof.
  intros Hsz Hwd HB HD L_out Hempty.
  assert (ELo : uint L ⊕ 2 ⊗ p ⊖ uint K ⊕ 1 = L_out).
  { subst L_out. uint_norm. reflexivity. }
  assert (Hsts : conv1d_stores (dtype u) (data u) (data weight) (data bias) p
                   B (uint L) D (uint K) = []).
  { destruct (supported (dtype u)) eqn:Hdt.
    - assert (HD2 : 0 ≤ D `div` 2) by (apply Z.div_pos; lia).
      assert (HL0 : 0 ≤ L_out) by apply uint_range.
      destruct (decide (B ≤ 65535 ∧ L_out ≤ 262140)) as [[HBg HLg]|Hbig];
        [|apply conv1d_stores_refused; [done|rewrite ELo; lia]].
      destruct (conv1d_stores_tiles (dtype u) (data u) (data weight)
                  (data bias) p B (uint L) D (uint K) Hdt HB HD)
        as [-> _]; [|done|rewrite ELo; done|].
      { rewrite ELo. destruct Hempty as [->| [->|Hd]]; [lia|lia|].
        replace (D `div` 2) with 0; [lia|].
        symmetry. apply Z.div_small. lia. }
      apply elem_of_nil_inv. rewrite ELo.
      intros s (b & l & d & Hb & _ & Hl & _ & Hd & _ & _)%elem_of_tiles.
      destruct Hempty as [->| [E|Hd2]]; [lia|lia|].
      rewrite Z.div_small in Hd; lia.
    - unfold conv1d_stores.
      assert (select_kernel (uint K) (dtype u) = None) as ->; [|done].
      unfold select_kernel. destruct (_ =? _), (dtype u); done. }
  split; [done|].
  rewrite (conv1d_cuda_blh_returned u weight bias p B L D K Hsz Hwd).
  cbv zeta. rewrite (uint_small B), (uint_small D), ELo, Hsts by done.
  do 2 eexists. split; reflexivity.
Qed.

(** A call with more than 65535 batches, or with more than [4 * 65535]
    output positions, asks for more blocks along z or y than a launch may
    have.  The launch is refused and no thread runs; the source does not
    look at the error of the launch, so the call returns its tensor, of
    the usual shape, entirely unwritten. *)
Theorem refused_launch_unwritten (u weight bias : Tensor S) p B L D K :
  sizes u = [B; L; D] → size weight 0 = Some K →
  0 ≤ B < 2 ^ 32 → 0 ≤ D < 2 ^ 32 →
  let L_out := L ⊕ 2 ⊗ p ⊖ uint K ⊕ 1 in
  65535 < B ∨ 262140 < L_out →
  launch_accepted (gridDims_of B (uint L ⊕ 2 ⊗ p) D (uint K)) (Dim3 BX BY BZ)
  = false
  ∧ conv1d_stores (dtype u) (data u) (data weight) (data bias) p
      B (uint L) D (uint K) = []
  ∧ ∃ stdout out,
      conv1d_cuda_blh u weight bias p = Returned stdout out
      ∧ out_sizes out = [B; L_out; D]
      ∧ out_data out = Some (replicate (Z.to_nat (B * L_out * D)) None).
Proof.
  intros Hsz Hwd HB HD L_out Hbig.
  assert (ELo : uint L ⊕ 2 ⊗ p ⊖ uint K ⊕ 1 = L_out).
  { subst L_out. uint_norm. reflexivity. }
  assert (Hsts : conv1d_stores (dtype u) (data u) (data weight) (data bias) p
                   B (uint L) D (uint K) = []).
  { apply conv1d_stores_refused; [done|]. by rewrite ELo. }
  split; [apply gridDims_refused; [done|]; by rewrite ELo|].
  split; [done|].
  rewrite (conv1d_cuda_blh_returned u weight bias p B L D K Hsz Hwd).
  cbv zeta. rewrite (uint_small B), (uint_small D), ELo, Hsts by done.
  do 2 eexists. split; [reflexivity|]. split; reflexivity.
Qed.

End DispatcherFacts.

(** ** Kernels and sampler at the edges *)

Section EdgeCases.
Context {S : Type} `{Repr S}.

(** Whatever the parity of the channel count, a launch within the limits
    on the number of blocks (at most 65535 batches and [4 * 65535] output
    positions) writes, each once, the first [2 * B * L_out * floor(D / 2)]
    scalars of the output storage; with an odd [D] the last [B * L_out]
    scalars of the tensor are never written. *)
Theorem odd_channels_unwritten (dt : ScalarType) (u w bias : list S)
    p B L D K :
  supported dt = true →
  0 ≤ B < 2 ^ 32 → 0 ≤ D < 2 ^ 32 →
  let L_out := L ⊕ 2 ⊗ p ⊖ K ⊕ 1 in
  B * L_out * (D `div` 2) ≤ 2 ^ 32 →
  B ≤ 65535 → L_out ≤ 262140 →
  let sts := conv1d_stores dt u w bias p B L D K in
  written sts ≡ₚ seqZ 0 (B * L_out * (D - D `mod` 2))
  ∧ (D `mod` 2 = 1 →
     ∀ j, B * L_out * (D - 1) ≤ j < B * L_out * D → j ∉ written sts).
Proof.
  intros Hdt HB HD L_out Hout HBg HLg sts.
  destruct (conv1d_stores_tiles dt u w bias p B L D K Hdt HB HD Hout HBg HLg)
    as [Hsts Hcov].
  fold L_out in Hcov, Hsts.
  assert (0 ≤ L_out) by apply uint_range.
  pose proof (Z.div_mod D 2 ltac:(lia)) as ED.
  pose proof (Z.mod_pos_bound D 2 ltac:(lia)) as BD.
  set (D2 := D `div` 2) in *. set (r := D `mod` 2) in *.
  assert (Hw : written sts ≡ₚ seqZ 0 (B * L_out * (D - r))).
  { subst sts. rewrite Hsts, tiles_written by (done || lia).
    replace (B * L_out * (D - r)) with (2 * (B * L_out * D2)); [done|].
    replace (D - r) with (2 * D2) by lia. lia. }
  split; [done|].
  intros Hr j Hj Hin. rewrite Hw in Hin.
  apply elem_of_seqZ in Hin. rewrite Hr in Hin. lia.
Qed.

Lemma length_bind_le {A B} (f : A → list B) (l : list A) (n : nat) :
  (∀ x, length (f x) ≤ n)%nat → (length (l ≫= f) ≤ length l * n)%nat.
Proof.
  intros Hf. induction l as [|a l IH]; [done|].
  rewrite bind_cons, length_app. specialize (Hf a). cbn. lia.
Qed.

(** Whatever its arguments, a thread of either kernel performs at most
    [TILE_SIZE_X * TILE_SIZE_Y = 8] stores, all of them through [out]. *)
Theorem thread_stores_bound (kern : Kernel) (u weights bias : list S)
    padding B L L_out L_eff D K blockIdx blockDim threadIdx :
  let sts := kernel_of kern u weights bias padding B L L_out L_eff D K
               blockIdx blockDim threadIdx in
  (length sts ≤ 8)%nat ∧ Forall (λ s, st_buf s = buf_out) sts.
Proof.
  intros sts. subst sts. split.
  - destruct kern; cbn [kernel_of];
      unfold conv1d_kernel, conv1d_kernel_k_3, _conv1d_k_3; cbv zeta.
    all: etransitivity;
      [apply (length_bind_le _ _ 4)|by rewrite length_seqZ].
    all: intros i; destruct (_ && _); [|cbn; lia].
    all: etransitivity;
      [apply (length_bind_le _ _ 1)|by rewrite length_seqZ].
    all: intros t; destruct (_ <? _); cbn; lia.
  - apply list.Forall_forall. intros s.
    destruct kern; cbn [kernel_of];
      unfold conv1d_kernel, conv1d_kernel_k_3, _conv1d_k_3; cbv zeta.
    all: intros (i & Hs & _)%list_elem_of_bind.
    all: destruct (_ && _); [|by apply not_elem_of_nil in Hs].
    all: apply list_elem_of_bind in Hs as (t & Hs & _).
    all: destruct (_ <? _); [|by apply not_elem_of_nil in Hs].
    all: by apply list_elem_of_singleton in Hs as ->.
Qed.

(** When the effective length is at most the padding, the upper bound
    [L_eff - (p + 1)] of the guard wraps around: positions from [p] on are
    read from the input, where the reading of the guard over the integers
    pads with zero. *)
Theorem get_u_upper_bound_wraps (u : list S) L_eff l p b k d L D K :
  0 ≤ L_eff ≤ p → p + 1 < 2 ^ 32 →
  0 ≤ l → 0 ≤ k → p ≤ l + k ≤ 2 ^ 32 + L_eff - (p + 1) →
  get_u u L_eff l p b k d L D K
  = load2 u (uint (b * L * D + (l + k - p) * D + d))
  ∧ sample u L_eff l p b k d L D K = Some zero2.
Proof.
  intros HLe Hp Hl Hk Hlk. split.
  - rewrite get_u_unfold. rewrite (uint_small (l + k)) by lia.
    assert (E : uint (L_eff - (p + 1)) = 2 ^ 32 + L_eff - (p + 1)).
    { unfold uint. symmetry.
      apply (Z.mod_unique_pos _ _ (-1)); lia. }
    rewrite E. rewrite Z.gtb_ltb.
    destruct (Z.ltb_spec (l + k) p); [lia|].
    destruct (Z.ltb_spec (2 ^ 32 + L_eff - (p + 1)) (l + k)); [lia|done].
  - unfold sample. rewrite Z.gtb_ltb.
    destruct (Z.ltb_spec (l + k) p); [done|].
    destruct (Z.ltb_spec (L_eff - (p + 1)) (l + k)); [done|lia].
Qed.

End EdgeCases.

(** ** Structure of the result *)

Section ResultStructure.
Context {S : Type} `{Repr S}.

(** With a weight of no rows the loop over the taps does not run: in a
    launch within the limits on the number of blocks, every position of
    the [L + 2 p + 1] of the output holds the bias. *)
Theorem zero_width_bias (u weight bias : Tensor S) p B L D :
  supported (dtype u) = true →
  conv_inputs u weight bias p B L D 0 →
  B ≤ 65535 → L + 2 * p + 1 ≤ 262140 →
  ∃ out,
    conv1d_cuda_blh u weight bias p = Returned [] out
    ∧ out_sizes out = [B; L + 2 * p + 1; D]
    ∧ out_data out
      = Some (Some <$> (b ← seqZ 0 B; l ← seqZ 0 (L + 2 * p + 1);
                         d ← seqZ 0 D; [at1 (data bias) d])).
Proof.
  intros Hdt Hin HBg HLg.
  rewrite (conv1d_cuda_blh_ref u weight bias p B L D 0 Hdt Hin) by lia.
  eexists. split; [reflexivity|].
  replace (L + 2 * p - 0 + 1) with (L + 2 * p + 1) by lia.
  split; [reflexivity|]. cbn [out_data].
  unfold convolve_ref, conv_unpadded, out_elem.
  replace (L + 2 * p - 0 + 1) with (L + 2 * p + 1) by lia.
  reflexivity.
Qed.

(** Channel [c] of the output depends on channel [c] of input, weight and
    bias only. *)
Theorem channel_independence
    (u1 w1 bias1 u2 w2 bias2 : Tensor S) p B L D K c :
  supported (dtype u1) = true → supported (dtype u2) = true →
  conv_inputs u1 w1 bias1 p B L D K →
  conv_inputs u2 w2 bias2 p B L D K →
  0 ≤ c < D →
  (∀ b l, 0 ≤ b < B → 0 ≤ l < L →
     at3 (data u1) L D b l c = at3 (data u2) L D b l c) →
  (∀ k, 0 ≤ k < K → at2 (data w1) D k c = at2 (data w2) D k c) →
  at1 (data bias1) c = at1 (data bias2) c →
  ∃ out1 out2 d1 d2,
    conv1d_cuda_blh u1 w1 bias1 p = Returned [] out1
    ∧ conv1d_cuda_blh u2 w2 bias2 p = Returned [] out2
    ∧ out_data out1 = Some d1 ∧ out_data out2 = Some d2
    ∧ ∀ b l, 0 ≤ b < B → 0 ≤ l < L + 2 * p - K + 1 →
        d1 !! Z.to_nat (b * (L + 2 * p - K + 1) * D + l * D + c)
        = d2 !! Z.to_nat (b * (L + 2 * p - K + 1) * D + l * D + c).
Proof.
  intros Hdt1 Hdt2 Hin1 Hin2 Hc Hu Hw Hbias.
  destruct (decide (B ≤ 65535 ∧ L + 2 * p - K + 1 ≤ 262140))
    as [[HBg HLg]|Hbig].
  2: { do 4 eexists.
       split; [apply conv1d_cuda_blh_refused; (done || lia)|].
       split; [apply conv1d_cuda_blh_refused; (done || lia)|].
       split; [reflexivity|]. split; [reflexivity|]. done. }
  do 4 eexists.
  split; [by apply conv1d_cuda_blh_ref|].
  split; [by apply conv1d_cuda_blh_ref|].
  split; [reflexivity|]. split; [reflexivity|].
  destruct Hin1 as [_ _ Hu1 _ _ _ HB HL HD HK Hp HLe HLo _ _ _].
  destruct Hin2 as [_ _ Hu2 _ _ _ _ _ _ _ _ _ _ _ _ _].
  intros b l Hb Hl.
  rewrite !list_lookup_fmap. unfold convolve_ref, conv_unpadded.
  rewrite !lookup_table3 by lia. cbn. do 2 f_equal.
  unfold out_elem. rewrite Hbias.
  apply foldl_ext_in. intros a k Hk%elem_of_seqZ.
  rewrite Hw by lia. f_equal.
  rewrite !zero_pad_lookup by (done || lia).
  destruct (_ || _) eqn:G; [done|].
  apply orb_false_iff in G as [G1%Z.ltb_ge G2].
  rewrite Z.gtb_ltb in G2. apply Z.ltb_ge in G2.
  apply Hu; lia.
Qed.

Lemma length_batch_slice (x : list S) (n B b : Z) :
  0 ≤ n → 0 ≤ b < B → length x = Z.to_nat (B * n) →
  length (batch_slice n b x) = Z.to_nat n.
Proof.
  intros Hn Hb Hx. unfold batch_slice.
  assert (0 ≤ b * n) by nia.
  assert (b * n + n ≤ B * n).
  { replace (b * n + n) with ((b + 1) * n) by lia.
    apply Z.mul_le_mono_nonneg_r; lia. }
  rewrite length_take, length_drop. lia.
Qed.

(** In a launch within the limits on the number of blocks, batch [b] of
    the output is the output of the call on batch [b] of the input alone. *)
Theorem batch_decomposition (u weight bias : Tensor S) p B L D K b :
  supported (dtype u) = true →
  conv_inputs u weight bias p B L D K →
  B ≤ 65535 → L + 2 * p - K + 1 ≤ 262140 →
  0 ≤ b < B →
  let u_b := mkTensor (dtype u) [1; L; D] (batch_slice (L * D) b (data u)) in
  ∃ out d out_b,
    conv1d_cuda_blh u weight bias p = Returned [] out
    ∧ out_data out = Some d
    ∧ conv1d_cuda_blh u_b weight bias p = Returned [] out_b
    ∧ out_data out_b = Some (batch_slice ((L + 2 * p - K + 1) * D) b d).
Proof.
  intros Hdt Hin HBg HLg Hb u_b.
  pose proof Hin as
    [Hsz Hwd Hu Hw Hbias Hev HB HL HD HK Hp HLe HLo Hiu Hiw Hio].
  set (Lo := L + 2 * p - K + 1) in *.
  assert (HLo0 : 0 ≤ Lo) by (subst Lo; lia).
  assert (HD2 : 0 ≤ D `div` 2) by (apply Z.div_pos; lia).
  assert (HLD : 0 ≤ L * D) by nia.
  assert (Hlen_b : length (batch_slice (L * D) b (data u)) = Z.to_nat (L * D)).
  { apply (length_batch_slice _ _ B); [done..|].
    rewrite Hu. f_equal. lia. }
  assert (Hin_b : conv_inputs u_b weight bias p 1 L D K).
  { split; try done; try lia.
    - cbn. rewrite Hlen_b. f_equal. lia.
    - assert (0 ≤ L * (D `div` 2)) by nia.
      assert (1 * (L * (D `div` 2)) ≤ B * (L * (D `div` 2)))
        by (apply Z.mul_le_mono_nonneg_r; lia).
      lia.
    - fold Lo. assert (0 ≤ Lo * (D `div` 2)) by nia.
      assert (1 * (Lo * (D `div` 2)) ≤ B * (Lo * (D `div` 2)))
        by (apply Z.mul_le_mono_nonneg_r; lia).
      lia. }
  do 3 eexists.
  split; [by apply conv1d_cuda_blh_ref|]. split; [reflexivity|].
  split; [by apply (conv1d_cuda_blh_ref u_b)|].
  cbn [out_data]. f_equal. fold Lo.
  assert (HLoD : 0 ≤ Lo * D) by nia.
  assert (Hfit : b * (Lo * D) + Lo * D ≤ B * Lo * D).
  { replace (b * (Lo * D) + Lo * D) with ((b + 1) * (Lo * D)) by lia.
    replace (B * Lo * D) with (B * (Lo * D)) by lia.
    apply Z.mul_le_mono_nonneg_r; lia. }
  assert (0 ≤ b * (Lo * D)) by nia.
  unfold batch_slice at 1. unfold convolve_ref, conv_unpadded. fold Lo.
  apply (list_eq_same_length _ _ (Z.to_nat (Lo * D)));
    [rewrite length_take, length_drop, length_fmap, length_table3 by lia; lia
    |rewrite length_fmap, length_table3 by lia; f_equal; lia
    |].
  intros j x y Hj. rewrite lookup_take_lt, lookup_drop by done.
  rewrite !list_lookup_fmap.
  assert (0 < D) by nia.
  pose proof (Z.div_mod (Z.of_nat j) D ltac:(lia)) as Ej.
  pose proof (Z.mod_pos_bound (Z.of_nat j) D ltac:(lia)) as Bj.
  set (l := Z.of_nat j `div` D) in *. set (c := Z.of_nat j `mod` D) in *.
  assert (0 ≤ l) by (apply Z.div_pos; lia).
  assert (l < Lo).
  { destruct (Z_lt_le_dec l Lo) as [?|Hge]; [done|exfalso].
    assert (Lo * D ≤ l * D) by (apply Z.mul_le_mono_nonneg_r; lia). lia. }
  replace (Z.to_nat (b * (Lo * D)) + j)%nat
    with (Z.to_nat (b * Lo * D + l * D + c)) by lia.
  replace j with (Z.to_nat (0 * Lo * D + l * D + c)) at 1 by lia.
  rewrite !lookup_table3 by lia. cbn.
  intros [= <-] [= <-]. f_equal. unfold out_elem.
  apply foldl_ext_in. intros a k Hk%elem_of_seqZ.
  f_equal.
  rewrite (zero_pad_lookup p 1 L D)
    by (done || lia || (cbn; rewrite Hlen_b; f_equal; lia)).
  rewrite (zero_pad_lookup p B L D) by (done || lia).
  destruct (_ || _) eqn:G; [done|].
  apply orb_false_iff in G as [G1%Z.ltb_ge G2].
  rewrite Z.gtb_ltb in G2. apply Z.ltb_ge in G2.
  unfold at3. subst u_b. cbn [data].
  replace (0 * L * D + (l + k - p) * D + c) with ((l + k - p) * D + c) by lia.
  rewrite (batch_slice_lookup _ L D b) by lia. done.
Qed.

End ResultStructure.

(** ** The further properties at concrete inputs *)

Module MoreExamples.
Import Float32 Float32Examples.

(** The worked example with its second channel replaced by [x]. *)
Definition other_channel (x : Z) : Tensor spec_float :=
  mkTensor kFloat32 [1; 5; 2] (of_Z <$> [1; x; 2; x; 3; x; 4; x; 5; x]).

(** A weight of no rows, and an input and bias of three channels. *)
Definition no_weight : Tensor spec_float := mkTensor kFloat32 [0; 2] [].
Definition u3 : Tensor spec_float :=
  mkTensor kFloat32 [1; 2; 3] (of_Z <$> [1; 2; 3; 4; 5; 6]).
Definition one_channel : Tensor spec_float :=
  mkTensor kFloat32 [1; 5; 1] (of_Z <$> [1; 2; 3; 4; 5]).

(** An input of 65536 batches of one position and two channels. *)
Definition many_batches : Tensor spec_float :=
  mkTensor kFloat32 [65536; 1; 2] (replicate (Z.to_nat 131072) (of_Z 1)).
Definition one_tap : Tensor spec_float :=
  mkTensor kFloat32 [1; 2] [of_Z 1; of_Z 1].

Lemma other_channel_ok x : conv_inputs (other_channel x) weight bias 1 1 5 2 3.
Proof. split; first [reflexivity | lia | by vm_compute]. Qed.

Lemma no_weight_ok : conv_inputs u no_weight bias 1 1 5 2 0.
Proof. split; first [reflexivity | lia | by vm_compute]. Qed.

Lemma other_channel_agrees x b l :
  0 ≤ b < 1 → 0 ≤ l < 5 →
  at3 (data u) 5 2 b l 0 = at3 (data (other_channel x)) 5 2 b l 0.
Proof.
  intros Hb Hl. assert (b = 0) as -> by lia.
  assert (E : l = 0 ∨ l = 1 ∨ l = 2 ∨ l = 3 ∨ l = 4) by lia.
  repeat (destruct E as [->|E]); try subst l; reflexivity.
Qed.

End MoreExamples.

Section MoreInstances.
Import Float32 Float32Examples MoreExamples.

Lemma schedule_independence_witness :
  let sts := conv1d_stores kFloat32 (data u) (data weight) (data bias)
               1 1 5 2 3 in
  let dev := mkDevice (data u) (data weight) (data bias)
               (replicate (Z.to_nat (1 * (5 + 2 * 1 - 3 + 1) * 2)) None) in
  exec (reverse sts) dev = exec sts dev ∧ is_Some (exec sts dev).
Proof.
  apply (schedule_independence u weight bias 1 1 5 2 3).
  - reflexivity.
  - exact inputs_ok.
  - apply reverse_Permutation.
Defined.

Lemma grid_geometry_witness :
  let g := gridDims_of 1 7 2 3 in
  let L_out := 7 ⊖ 3 ⊕ 1 in
  dim_z g = 1
  ∧ 4 * (dim_y g - 1) < L_out ≤ 4 * dim_y g
  ∧ 2048 * (dim_x g - 1) < 2 ≤ 2048 * dim_x g.
Proof. apply (grid_geometry 1 7 2 3); lia. Defined.

Lemma empty_launch_witness :
  let L_out := 5 ⊕ 2 ⊗ 1 ⊖ uint 3 ⊕ 1 in
  conv1d_stores kFloat32 (data one_channel) (data weight) (data bias) 1
    1 (uint 5) 1 (uint 3) = []
  ∧ ∃ stdout out,
      conv1d_cuda_blh one_channel weight bias 1 = Returned stdout out
      ∧ out_data out = Some (replicate (Z.to_nat (1 * L_out * 1)) None).
Proof.
  apply (empty_launch one_channel weight bias 1 1 5 1 3);
    first [reflexivity | lia].
Defined.

Lemma refused_launch_unwritten_witness :
  let L_out := 1 ⊕ 2 ⊗ 0 ⊖ uint 1 ⊕ 1 in
  launch_accepted (gridDims_of 65536 (uint 1 ⊕ 2 ⊗ 0) 2 (uint 1))
    (Dim3 BX BY BZ) = false
  ∧ conv1d_stores kFloat32 (data many_batches) (data one_tap) (data bias) 0
      65536 (uint 1) 2 (uint 1) = []
  ∧ ∃ stdout out,
      conv1d_cuda_blh many_batches one_tap bias 0 = Returned stdout out
      ∧ out_sizes out = [65536; L_out; 2]
      ∧ out_data out = Some (replicate (Z.to_nat (65536 * L_out * 2)) None).
Proof.
  apply (refused_launch_unwritten many_batches one_tap bias 0 65536 1 2 1);
    first [reflexivity | lia].
Defined.

Lemma odd_channels_unwritten_witness :
  let L_out := 2 ⊕ 2 ⊗ 1 ⊖ 3 ⊕ 1 in
  let sts := conv1d_stores kFloat32 (data u3) (data weight) (data bias)
               1 1 2 3 3 in
  written sts ≡ₚ seqZ 0 (1 * L_out * (3 - 3 `mod` 2))
  ∧ (3 `mod` 2 = 1 →
     ∀ j, 1 * L_out * (3 - 1) ≤ j < 1 * L_out * 3 → j ∉ written sts).
Proof.
  apply (odd_channels_unwritten kFloat32 (data u3) (data weight) (data bias)
           1 1 2 3 3); first [reflexivity | lia | by vm_compute].
Defined.

Lemma get_u_upper_bound_wraps_witness :
  get_u (data u) 0 0 0 0 0 0 5 1 3
  = load2 (data u) (uint (0 * 5 * 1 + (0 + 0 - 0) * 1 + 0))
  ∧ sample (data u) 0 0 0 0 0 0 5 1 3 = Some zero2.
Proof. apply get_u_upper_bound_wraps; lia. Defined.

Lemma zero_width_bias_witness :
  ∃ out,
    conv1d_cuda_blh u no_weight bias 1 = Returned [] out
    ∧ out_sizes out = [1; 5 + 2 * 1 + 1; 2]
    ∧ out_data out
      = Some (Some <$> (b ← seqZ 0 1; l ← seqZ 0 (5 + 2 * 1 + 1);
                         d ← seqZ 0 2; [at1 (data bias) d])).
Proof.
  apply (zero_width_bias u no_weight bias 1 1 5 2).
  - reflexivity.
  - exact no_weight_ok.
  - lia.
  - lia.
Defined.

Lemma channel_independence_witness :
  ∃ out1 out2 d1 d2,
    conv1d_cuda_blh u weight bias 1 = Returned [] out1
    ∧ conv1d_cuda_blh (other_channel 7) weight bias 1 = Returned [] out2
    ∧ out_data out1 = Some d1 ∧ out_data out2 = Some d2
    ∧ ∀ b l, 0 ≤ b < 1 → 0 ≤ l < 5 + 2 * 1 - 3 + 1 →
        d1 !! Z.to_nat (b * (5 + 2 * 1 - 3 + 1) * 2 + l * 2 + 0)
        = d2 !! Z.to_nat (b * (5 + 2 * 1 - 3 + 1) * 2 + l * 2 + 0).
Proof.
  apply (channel_independence u weight bias (other_channel 7) weight bias
           1 1 5 2 3 0).
  - reflexivity.
  - reflexivity.
  - exact inputs_ok.
  - exact (other_channel_ok 7).
  - lia.
  - exact (other_channel_agrees 7).
  - reflexivity.
  - reflexivity.
Defined.

Lemma batch_decomposition_witness :
  let u_b := mkTensor kFloat32 [1; 5; 2]
               (batch_slice (5 * 2) 1 (data (two_batches 7))) in
  ∃ out d out_b,
    conv1d_cuda_blh (two_batches 7) weight bias 1 = Returned [] out
    ∧ out_data out = Some d
    ∧ conv1d_cuda_blh u_b weight bias 1 = Returned [] out_b
    ∧ out_data out_b = Some (batch_slice ((5 + 2 * 1 - 3 + 1) * 2) 1 d).
Proof.
  apply (batch_decomposition (two_batches 7) weight bias 1 2 5 2 3 1).
  - reflexivity.
  - exact (two_batches_ok 7).
  - lia.
  - lia.
  - lia.
Defined.

End MoreInstances.

(** ** A padded tap at binary32 *)

Section PaddedTap.
Import Float32.

(** Neither infinite nor a NaN. *)
Definition is_finite (x : spec_float) : bool :=
  match x with
  | S754_zero _ | S754_finite _ _ _ => true
  | _ => false
  end.

(** With the multiply-add of lines 21-24 at binary32, a tap that the
    sampler pads with zero leaves the accumulated pair as it is when both
    lanes of the weight are finite and no lane of the accumulator is [-0];
    an infinite weight in a padded tap turns its lane into a NaN. *)
Theorem padded_tap_binary32 (w acc : vec2 spec_float) :
  is_finite w.1 = true → is_finite w.2 = true →
  acc.1 ≠ S754_zero true → acc.2 ≠ S754_zero true →
  __hfma2 zero2 w acc = acc
  ∧ ∀ s y c, __hfma2 zero2 (S754_infinity s, y) c = (S754_nan, fmac f0 y c.2).
Proof.
  intros Hw1 Hw2 Ha1 Ha2. split.
  - destruct w as [w1 w2], acc as [a1 a2]. cbn in *.
    unfold __hfma2, zero2. cbn.
    f_equal.
    + destruct w1 as [s| | |s m e]; try discriminate;
        destruct a1 as [[]| | |]; try done; by destruct s.
    + destruct w2 as [s| | |s m e]; try discriminate;
        destruct a2 as [[]| | |]; try done; by destruct s.
  - intros s y [c1 c2]. reflexivity.
Qed.

Lemma padded_tap_binary32_witness :
  __hfma2 zero2 (of_Z 1, of_Z 1) (of_Z 3, of_Z 3) = (of_Z 3, of_Z 3)
  ∧ ∀ s y c, __hfma2 zero2 (S754_infinity s, y) c = (S754_nan, fmac f0 y c.2).
Proof.
  apply (padded_tap_binary32 (of_Z 1, of_Z 1) (of_Z 3, of_Z 3));
    first [reflexivity | by vm_compute].
Defined.

End PaddedTap.
